(** * KiSAX: a shallow embedding of the one-header SAX parser [kisax.h]

    The development follows the source top-down: the error codes of
    [KiSAX::Exception], the events of the handler interface, the input
    stream, the members of [KiSAX::Parser], the symbol classifier, the two
    tables built by [init], the action routines, and the public methods
    [bind], [parse], [stop] and [reset].

    Conventions of the embedding.
    - [char] is [ascii]; [std::string] is [string]; [stringmap]
      ([std::map<std::string,std::string>]) is [gmap string string].
    - [std::isalpha] and [std::isdigit] are those of the "C" locale.
    - The virtual handling methods are the event sink.  A call of a
      handling method is recorded in the ghost member [trace]; the handler
      supplied by the derived class is the section variable [sink], which
      sees the events delivered so far and the current event and answers
      whether it calls [stop()].  Calling [stop()] is the only way a handler
      acts on the parser in this model.
    - A C++ exception is the result [Throw e p], where [p] is the parser as
      the throw leaves it.  An out-of-bounds read of a table is [Undefined].
*)

From Stdlib Require Import ZArith Ascii String.
From stdpp Require Import base option list strings gmap.

Local Open Scope Z_scope.

(** ** Error codes ([Exception::ErrorCodes]) *)

Inductive ErrorCodes : Type :=
  | KISAX_ERROR_CLOSE_STYLE_TAG
  | KISAX_ERROR_CLOSING_TAG_WITH_NO_BODY
  | KISAX_ERROR_CLOSING_TAG_WITH_ATTRIBUTES
  | KISAX_ERROR_BAD_STREAM
  | KISAX_ERROR_PARSING.

Definition error_number (e : ErrorCodes) : Z :=
  match e with
  | KISAX_ERROR_CLOSE_STYLE_TAG => 200
  | KISAX_ERROR_CLOSING_TAG_WITH_NO_BODY => 201
  | KISAX_ERROR_CLOSING_TAG_WITH_ATTRIBUTES => 202
  | KISAX_ERROR_BAD_STREAM => 203
  | KISAX_ERROR_PARSING => 204
  end.

(** ** Events: one constructor per virtual handling method *)

Abbreviation stringmap := (gmap string string).

Inductive Event : Type :=
  | documentStart
  | documentEnd
  | elementStart (tagname : string) (attributes : stringmap)
  | elementEnd (tagname : string)
  | textHandle (rawtext : string)
  | definitionHandle (definition : string) (attributes : stringmap)
  | commentHandle (comment : string).

(** ** The bound stream ([std::istream])

    [pending] holds the characters not yet extracted; the three bits are the
    stream's [iostate]. *)

Record istream : Type := Istream {
  pending : list ascii;
  eofbit : bool;
  failbit : bool;
  badbit : bool
}.

Definition good (s : istream) : bool :=
  negb (eofbit s) && negb (failbit s) && negb (badbit s).

(** [istream::eof()] *)
Definition eof (s : istream) : bool := eofbit s.

(** [istream::get(char&)]: a stream that is not good sets [failbit] and
    extracts nothing; a good stream at its end sets [eofbit] and [failbit];
    otherwise one character is extracted.

    The stream is one whose characters are all there, such as a string
    stream: a good stream gives every pending character and then reports the
    end of file.  A device that fails in the middle of the input (an
    extraction that sets [badbit], or [failbit] without [eofbit], on a
    stream that was good) is not described, so nothing below speaks of the
    error such a failure leads to. *)
Definition get(s : istream) : option ascii * istream :=
  if good s then
    match pending s with
    | [] => (None, Istream [] true true (badbit s))
    | c :: rest => (Some c, Istream rest (eofbit s) (failbit s) (badbit s))
    end
  else (None, Istream (pending s) (eofbit s) true (badbit s)).

(** A readable stream holding the characters of [s]. *)
Definition stream_of (s : string) : istream :=
  Istream (list_ascii_of_string s) false false false.

(** ** The members of [Parser] *)

Record Parser : Type := MkParser {
  m_state : Z;
  m_current_char : ascii;
  m_is : option istream;
  m_text : string;
  m_tag : string;
  m_attributes : stringmap;
  m_attribute_first : string;
  m_attribute_second : string;
  m_comment : string;
  m_is_style : bool;
  m_is_closing_tag : bool;
  m_is_tag_no_body : bool;
  m_stop_flag : bool;
  trace : list Event
}.

Definition set_state (v : Z) (p : Parser) : Parser :=
  MkParser v (m_current_char p) (m_is p) (m_text p) (m_tag p)
    (m_attributes p) (m_attribute_first p) (m_attribute_second p)
    (m_comment p) (m_is_style p) (m_is_closing_tag p) (m_is_tag_no_body p)
    (m_stop_flag p) (trace p).

Definition set_current_char (v : ascii) (p : Parser) : Parser :=
  MkParser (m_state p) v (m_is p) (m_text p) (m_tag p)
    (m_attributes p) (m_attribute_first p) (m_attribute_second p)
    (m_comment p) (m_is_style p) (m_is_closing_tag p) (m_is_tag_no_body p)
    (m_stop_flag p) (trace p).

Definition set_is (v : option istream) (p : Parser) : Parser :=
  MkParser (m_state p) (m_current_char p) v (m_text p) (m_tag p)
    (m_attributes p) (m_attribute_first p) (m_attribute_second p)
    (m_comment p) (m_is_style p) (m_is_closing_tag p) (m_is_tag_no_body p)
    (m_stop_flag p) (trace p).

Definition set_text (v : string) (p : Parser) : Parser :=
  MkParser (m_state p) (m_current_char p) (m_is p) v (m_tag p)
    (m_attributes p) (m_attribute_first p) (m_attribute_second p)
    (m_comment p) (m_is_style p) (m_is_closing_tag p) (m_is_tag_no_body p)
    (m_stop_flag p) (trace p).

Definition set_tag (v : string) (p : Parser) : Parser :=
  MkParser (m_state p) (m_current_char p) (m_is p) (m_text p) v
    (m_attributes p) (m_attribute_first p) (m_attribute_second p)
    (m_comment p) (m_is_style p) (m_is_closing_tag p) (m_is_tag_no_body p)
    (m_stop_flag p) (trace p).

Definition set_attributes (v : stringmap) (p : Parser) : Parser :=
  MkParser (m_state p) (m_current_char p) (m_is p) (m_text p) (m_tag p)
    v (m_attribute_first p) (m_attribute_second p)
    (m_comment p) (m_is_style p) (m_is_closing_tag p) (m_is_tag_no_body p)
    (m_stop_flag p) (trace p).

Definition set_attribute_first (v : string) (p : Parser) : Parser :=
  MkParser (m_state p) (m_current_char p) (m_is p) (m_text p) (m_tag p)
    (m_attributes p) v (m_attribute_second p)
    (m_comment p) (m_is_style p) (m_is_closing_tag p) (m_is_tag_no_body p)
    (m_stop_flag p) (trace p).

Definition set_attribute_second (v : string) (p : Parser) : Parser :=
  MkParser (m_state p) (m_current_char p) (m_is p) (m_text p) (m_tag p)
    (m_attributes p) (m_attribute_first p) v
    (m_comment p) (m_is_style p) (m_is_closing_tag p) (m_is_tag_no_body p)
    (m_stop_flag p) (trace p).

Definition set_comment (v : string) (p : Parser) : Parser :=
  MkParser (m_state p) (m_current_char p) (m_is p) (m_text p) (m_tag p)
    (m_attributes p) (m_attribute_first p) (m_attribute_second p)
    v (m_is_style p) (m_is_closing_tag p) (m_is_tag_no_body p)
    (m_stop_flag p) (trace p).

Definition set_is_style (v : bool) (p : Parser) : Parser :=
  MkParser (m_state p) (m_current_char p) (m_is p) (m_text p) (m_tag p)
    (m_attributes p) (m_attribute_first p) (m_attribute_second p)
    (m_comment p) v (m_is_closing_tag p) (m_is_tag_no_body p)
    (m_stop_flag p) (trace p).

Definition set_is_closing_tag (v : bool) (p : Parser) : Parser :=
  MkParser (m_state p) (m_current_char p) (m_is p) (m_text p) (m_tag p)
    (m_attributes p) (m_attribute_first p) (m_attribute_second p)
    (m_comment p) (m_is_style p) v (m_is_tag_no_body p)
    (m_stop_flag p) (trace p).

Definition set_is_tag_no_body (v : bool) (p : Parser) : Parser :=
  MkParser (m_state p) (m_current_char p) (m_is p) (m_text p) (m_tag p)
    (m_attributes p) (m_attribute_first p) (m_attribute_second p)
    (m_comment p) (m_is_style p) (m_is_closing_tag p) v
    (m_stop_flag p) (trace p).

Definition set_stop_flag (v : bool) (p : Parser) : Parser :=
  MkParser (m_state p) (m_current_char p) (m_is p) (m_text p) (m_tag p)
    (m_attributes p) (m_attribute_first p) (m_attribute_second p)
    (m_comment p) (m_is_style p) (m_is_closing_tag p) (m_is_tag_no_body p)
    v (trace p).

Definition set_trace (v : list Event) (p : Parser) : Parser :=
  MkParser (m_state p) (m_current_char p) (m_is p) (m_text p) (m_tag p)
    (m_attributes p) (m_attribute_first p) (m_attribute_second p)
    (m_comment p) (m_is_style p) (m_is_closing_tag p) (m_is_tag_no_body p)
    (m_stop_flag p) v.

(** ** Results of the methods that may throw *)

Inductive Result : Type :=
  | Ok (p : Parser)
  | Throw (e : ErrorCodes) (p : Parser)
  | Undefined.

Definition bind_result (r : Result) (k : Parser -> Result) : Result :=
  match r with
  | Ok p => k p
  | Throw e p => Throw e p
  | Undefined => Undefined
  end.

Notation "r >>= k" := (bind_result r k) (at level 50, left associativity).

(** ** [Parser::Symbol] and [getSymbolType] *)

Inductive Symbol : Type :=
  | TAG_BEGIN | QUESTION | DELIMITER | EQUAL | QUOTE | SLASH | EXCLAMATION
  | MINUS | UNDERLINE | DIGIT | ALPHA | COLON | TAG_END | ANOTHER.

Definition symbol_value (y : Symbol) : Z :=
  match y with
  | TAG_BEGIN => 0 | QUESTION => 1 | DELIMITER => 2 | EQUAL => 3
  | QUOTE => 4 | SLASH => 5 | EXCLAMATION => 6 | MINUS => 7
  | UNDERLINE => 8 | DIGIT => 9 | ALPHA => 10 | COLON => 11
  | TAG_END => 12 | ANOTHER => 13
  end.

Definition MAXTOKEN : Z := 14.

Definition code (c : ascii) : Z := Z.of_N (N_of_ascii c).

Definition isalpha (c : ascii) : bool :=
  ((65 <=? code c) && (code c <=? 90)) || ((97 <=? code c) && (code c <=? 122)).

Definition isdigit (c : ascii) : bool :=
  (48 <=? code c) && (code c <=? 57).

Definition getSymbolType (c : ascii) : Symbol :=
  if isalpha c then ALPHA
  else if isdigit c then DIGIT
  else if Ascii.eqb c " " then DELIMITER
  else if Ascii.eqb c "010" then DELIMITER
  else if Ascii.eqb c "009" then DELIMITER
  else if Ascii.eqb c "<" then TAG_BEGIN
  else if Ascii.eqb c ">" then TAG_END
  else if Ascii.eqb c "?" then QUESTION
  else if Ascii.eqb c "=" then EQUAL
  else if Ascii.eqb c "034" then QUOTE
  else if Ascii.eqb c "/" then SLASH
  else if Ascii.eqb c "!" then EXCLAMATION
  else if Ascii.eqb c "-" then MINUS
  else if Ascii.eqb c "_" then UNDERLINE
  else if Ascii.eqb c ":" then COLON
  else ANOTHER.

(** ** The transition table [_states] of [init] *)

Definition _states : list Z :=
  [  1;-1; 0;-1;-1;-1;-1;-1;-1;-1;-1;-1;-1;-1;
    -1;17;-1;-1;-1;-1;-1;-1;-1;-1;-1;-1;-1;-1;
    -1;17;-1;-1;-1; 9;18;-1; 3; 3; 3;-1;-1;-1;
    -1; 4; 5;-1;-1; 7;-1; 3; 3; 3; 3; 3; 6;-1;
    -1;-1;-1;-1;-1;-1;-1;-1;-1;-1;-1;-1; 6;-1;
    -1; 4;-1;-1;-1; 7;-1;-1;-1;-1;11;-1; 6;-1;
    -1;-1;-1;-1;-1;-1;-1;-1;-1;-1;-1;-1;-1;-1;
    -1;-1;-1;-1;-1;-1;-1;-1;-1;-1;-1;-1; 6;-1;
     2;10; 8;10;10;10;10;10;10;10;10;10;10;10;
    -1;-1; 0;-1;-1;-1;-1;-1; 3; 3; 3;-1;-1;-1;
    16;10;10;10;10;10;10;10;10;10;10;10;10;10;
    -1;-1;-1;12;-1;-1;-1;11;11;11;11;-1;-1;-1;
    -1;-1;-1;-1;14;-1;-1;-1;-1;-1;-1;-1;-1;-1;
    13;13;13;13;15;13;13;13;13;13;13;13;13;13;
    13;13;13;13;15;13;13;13;13;13;13;13;13;13;
    -1; 4; 5;-1;-1; 7;-1;-1;-1;-1;-1;-1; 6;-1;
    -1;-1;-1;-1;-1;-1;-1;-1;-1;-1;-1;-1;-1;-1;
    -1;-1;-1;-1;-1;-1;-1;-1; 3; 3; 3;-1;-1;-1;
    -1;-1;-1;-1;-1;-1;-1;19;-1;-1;-1;-1;-1;-1;
    -1;-1;-1;-1;-1;-1;-1;20;-1;-1;-1;-1;-1;-1;
    21;21;21;21;21;21;21;22;21;21;21;21;21;21;
    21;21;21;21;21;21;21;22;21;21;21;21;21;21;
    24;24;24;24;24;24;24;23;24;24;24;24;24;24;
    -1;-1;-1;-1;-1;-1;-1;-1;-1;-1;-1;-1;25;-1;
    -1;-1;-1;-1;-1;-1;-1;-1;-1;-1;-1;-1;-1;-1;
    -1;-1;-1;-1;-1;-1;-1;-1;-1;-1;-1;-1;-1;-1 ].

(** [m_states[i]]; an index outside the array has no defined value. *)
Definition m_states (i : Z) : option Z :=
  if i <? 0 then None else _states !! Z.to_nat i.

(** [std::string::push_back] *)
Definition push_back (s : string) (c : ascii) : string :=
  s +:+ String c EmptyString.

Section Handler.

(** The handling methods of the derived class: [sink evs e] tells whether
    the handler of event [e], called after the events [evs], calls
    [stop()]. *)
Variable sink : list Event -> Event -> bool.

(** ** [Parser::stop] *)
Definition stop (p : Parser) : Parser := set_stop_flag true p.

(** A call of a virtual handling method. *)
Definition call (e : Event) (p : Parser) : Parser :=
  let p' := set_trace (trace p ++ [e]) p in
  if sink (trace p) e then stop p' else p'.

(** ** The action routines *)

Definition RULE : Type := Parser -> Result.

Definition do_nothing : RULE := fun p => Ok p.

Definition do_style_on : RULE := fun p => Ok (set_is_style true p).

Definition do_tag_pushback : RULE := fun p =>
  Ok (set_tag (push_back (m_tag p) (m_current_char p)) p).

Definition do_commentary_pushback : RULE := fun p =>
  Ok (set_comment (push_back (m_comment p) (m_current_char p)) p).

Definition do_commentary_end : RULE := fun p =>
  let p := call (commentHandle (m_comment p)) p in
  let p := set_comment EmptyString p in
  Ok (set_state 8 p).

Definition do_comment_minus_mark : RULE := fun p =>
  let p := set_comment (push_back (m_comment p) "-") p in
  Ok (set_state 21 p).

Definition do_tag_clear : RULE := fun p => Ok (set_tag EmptyString p).

Definition do_text_end : RULE := fun p =>
  let p := call (textHandle (m_text p)) p in
  let p := set_text EmptyString p in
  Ok (set_state 2 p).

(** [std::map::insert] leaves the map as it is when the key is present. *)
Definition map_insert (k v : string) (m : stringmap) : stringmap :=
  match m !! k with
  | Some _ => m
  | None => <[k := v]> m
  end.

Definition do_attribute_store : RULE := fun p =>
  let p := set_attributes
             (map_insert (m_attribute_first p) (m_attribute_second p)
                (m_attributes p)) p in
  let p := set_attribute_first EmptyString p in
  Ok (set_attribute_second EmptyString p).

Definition do_all_clear (p : Parser) : Parser :=
  let p := set_is_closing_tag false p in
  let p := set_is_style false p in
  let p := set_is_tag_no_body false p in
  let p := set_text EmptyString p in
  let p := set_tag EmptyString p in
  let p := set_attributes ∅ p in
  let p := set_attribute_first EmptyString p in
  set_attribute_second EmptyString p.

Definition do_attribute_first_pushback : RULE := fun p =>
  Ok (set_attribute_first
        (push_back (m_attribute_first p) (m_current_char p)) p).

Definition do_attribute_second_pushback : RULE := fun p =>
  Ok (set_attribute_second
        (push_back (m_attribute_second p) (m_current_char p)) p).

Definition do_is_style_on : RULE := fun p =>
  if negb (m_is_style p) then Throw KISAX_ERROR_CLOSE_STYLE_TAG p else Ok p.

Definition do_tag_end : RULE := fun p =>
  (if m_is_style p then
     let p := set_is_style false p in
     Ok (call (definitionHandle (m_tag p) (m_attributes p)) p)
   else if m_is_closing_tag p then
     if negb (bool_decide (m_attributes p = ∅))
     then Throw KISAX_ERROR_CLOSING_TAG_WITH_ATTRIBUTES p
     else Ok (call (elementEnd (m_tag p)) p)
   else Ok (call (elementStart (m_tag p) (m_attributes p)) p))
  >>= fun p =>
  let p := if m_is_tag_no_body p then call (elementEnd (m_tag p)) p else p in
  let p := do_all_clear p in
  Ok (set_state 8 p).

Definition do_tag_wobody_close : RULE := fun p =>
  if m_is_style p then Throw KISAX_ERROR_CLOSE_STYLE_TAG p
  else if m_is_closing_tag p then Throw KISAX_ERROR_CLOSING_TAG_WITH_NO_BODY p
  else Ok (set_is_tag_no_body true p).

Definition do_tag_is_closing : RULE := fun p =>
  if m_is_style p then Throw KISAX_ERROR_CLOSE_STYLE_TAG p
  else Ok (set_is_closing_tag true p).

Definition do_text_pushback : RULE := fun p =>
  Ok (set_text (push_back (m_text p) (m_current_char p)) p).

(** ** The action table [_rules] of [init] *)

Definition _rules : list RULE :=
  [ do_nothing;                   (*  0 *)
    do_nothing;                   (*  1 *)
    do_nothing;                   (*  2 *)
    do_tag_pushback;              (*  3 *)
    do_is_style_on;               (*  4 *)
    do_nothing;                   (*  5 *)
    do_tag_end;                   (*  6 *)
    do_tag_wobody_close;          (*  7 *)
    do_nothing;                   (*  8 *)
    do_tag_is_closing;            (*  9 *)
    do_text_pushback;             (* 10 *)
    do_attribute_first_pushback;  (* 11 *)
    do_nothing;                   (* 12 *)
    do_attribute_second_pushback; (* 13 *)
    do_nothing;                   (* 14 *)
    do_attribute_store;           (* 15 *)
    do_text_end;                  (* 16 *)
    do_style_on;                  (* 17 *)
    do_nothing;                   (* 18 *)
    do_nothing;                   (* 19 *)
    do_nothing;                   (* 20 *)
    do_commentary_pushback;       (* 21 *)
    do_nothing;                   (* 22 *)
    do_nothing;                   (* 23 *)
    do_comment_minus_mark;        (* 24 *)
    do_commentary_end             (* 25 *) ].

Definition m_rules (i : Z) : option RULE :=
  if i <? 0 then None else _rules !! Z.to_nat i.

(** ** [Parser::reset] *)
Definition reset (p : Parser) : Parser :=
  let p := set_state 0 p in
  let p := set_is_style false p in
  let p := set_is_closing_tag false p in
  let p := set_is_tag_no_body false p in
  let p := set_stop_flag false p in
  do_all_clear p.

(** [Parser::init]: the tables are the constants above, [reserve] changes
    no content, and the members are reset. *)
Definition init (p : Parser) : Parser := reset p.

(** The constructors [Parser()] ([src = None]) and [Parser(std::istream&)].
    The members that have no initializer are overwritten by [init], except
    [m_current_char], whose indeterminate initial value is [junk]. *)
Definition Parser_new (junk : ascii) (src : option istream) : Parser :=
  init (MkParser 0 junk src EmptyString EmptyString ∅ EmptyString EmptyString
          EmptyString false false false false []).

(** ** [Parser::bind] *)
Definition bind (s : istream) (p : Parser) : Parser := set_is (Some s) p.

(** ** [Parser::parse] *)

(** The body of the [while] loop, entered with the extracted character in
    [m_current_char]. *)
Definition parse_body (p : Parser) : Result :=
  match m_states (m_state p * MAXTOKEN
                  + symbol_value (getSymbolType (m_current_char p))) with
  | None => Undefined
  | Some s =>
      let p := set_state s p in
      if s <? 0 then Throw KISAX_ERROR_PARSING p
      else match m_rules s with
           | None => Undefined
           | Some rule => rule p
           end
  end.

(** The [while] loop on a good stream whose unread characters are [cs].
    The condition extracts a character first and tests the stop flag
    second; when no character is left, the failed extraction sets [eofbit]
    and [failbit]. *)
Fixpoint parse_loop (cs : list ascii) (p : Parser) : Result :=
  match cs with
  | [] => Ok (set_is (Some (Istream [] true true false)) p)
  | c :: rest =>
      let p := set_is (Some (Istream rest false false false)) p in
      let p := set_current_char c p in
      if m_stop_flag p then Ok p
      else parse_body p >>= parse_loop rest
  end.

Definition stream_eof (p : Parser) : bool :=
  match m_is p with
  | Some s => eof s
  | None => false
  end.

(** The [while] statement of [parse] on the bound stream [s]: on a stream
    that is not good the first extraction fails, sets [failbit], and the
    body never runs. *)
Definition parse_while (s : istream) (p : Parser) : Result :=
  if good s then parse_loop (pending s) p
  else Ok (set_is (Some (snd (get s))) p).

(** The two statements of [parse] after the loop. *)
Definition parse_end (p : Parser) : Result :=
  if negb (m_stop_flag p) && negb (stream_eof p)
  then Throw KISAX_ERROR_BAD_STREAM p
  else Ok (call documentEnd p).

Definition parse (p : Parser) : Result :=
  match m_is p with
  | None => Throw KISAX_ERROR_BAD_STREAM p
  | Some s =>
      let p := if m_stop_flag p then p else call documentStart p in
      let p := set_stop_flag false p in
      parse_while s p >>= parse_end
  end.

(** ** Parsers that occur in an execution

    The least set that holds the constructed parsers and is closed under
    the public methods and under the steps [parse] is made of: the call of
    [documentStart] or [documentEnd], the clearing of the stop flag, the
    extraction of a character, and one run of the loop body (whether it
    returns or throws).  Binding also stands for whatever the caller does
    to the stream between two calls. *)
Inductive reachable : Parser -> Prop :=
  | reachable_new junk src : reachable (Parser_new junk src)
  | reachable_bind s p : reachable p -> reachable (bind s p)
  | reachable_flag b p : reachable p -> reachable (set_stop_flag b p)
  | reachable_reset p : reachable p -> reachable (reset p)
  | reachable_documentStart p : reachable p -> reachable (call documentStart p)
  | reachable_documentEnd p : reachable p -> reachable (call documentEnd p)
  | reachable_get c p : reachable p -> reachable (set_current_char c p)
  | reachable_body p p' : reachable p -> parse_body p = Ok p' -> reachable p'
  | reachable_throw p e p' :
      reachable p -> parse_body p = Throw e p' -> reachable p'.

End Handler.

(** ** Vocabulary of the statements *)

(** What a suspended scan keeps: every member but the stream and the
    character last extracted. *)
Definition scanner_context (p : Parser) :=
  (m_state p, m_text p, m_tag p, m_attributes p, m_attribute_first p,
   m_attribute_second p, m_comment p,
   (m_is_style p, m_is_closing_tag p, m_is_tag_no_body p)).

(** The parser of a [Result], if it has one. *)
Definition parser_of (r : Result) : option Parser :=
  match r with
  | Ok p => Some p
  | Throw _ p => Some p
  | Undefined => None
  end.

(** A handler that never calls [stop()]. *)
Definition never : list Event -> Event -> bool := fun _ _ => false.

(** A handler that calls [stop()] in [elementStart] for the tag [name]. *)
Definition stop_at_start (name : string) : list Event -> Event -> bool :=
  fun _ e =>
    match e with
    | elementStart n _ => String.eqb n name
    | _ => false
    end.

(** A handler that calls [stop()] in [elementEnd] for the tag [name]. *)
Definition stop_at_end (name : string) : list Event -> Event -> bool :=
  fun _ e =>
    match e with
    | elementEnd n => String.eqb n name
    | _ => false
    end.

(** A document with an element after the one whose end stops the scan. *)
Definition stop_document : string := "<?x?><a></a><b>u</b>".

(** The first two statements of [parse] on a bound parser: [documentStart]
    is called unless the stop flag is up, and the flag is cleared.  This is
    the parser the loop starts from. *)
Definition parse_begin (sink : list Event -> Event -> bool) (p : Parser)
  : Parser :=
  set_stop_flag false (if m_stop_flag p then p else call sink documentStart p).

(** A freshly constructed parser bound to a stream holding [doc]. *)
Definition fresh (doc : string) : Parser :=
  Parser_new "000" (Some (stream_of doc)).

(** The quotation mark as a string. *)
Definition quot : string := String "034" EmptyString.

(** [s] begins with the comment terminator. *)
Definition starts_with_terminator (s : list ascii) : bool :=
  match s with
  | a :: b :: c :: _ => Ascii.eqb a "-" && Ascii.eqb b "-" && Ascii.eqb c ">"
  | _ => false
  end.

(** The comment terminator occurs in [s]. *)
Fixpoint has_terminator (s : list ascii) : bool :=
  match s with
  | [] => false
  | _ :: t => starts_with_terminator s || has_terminator t
  end.

(** The text invariant: while text is being read the text buffer holds at
    least one character, and no [textHandle] was called on the empty
    string. *)
Definition text_invariant (p : Parser) : Prop :=
  (m_state p = 10 -> m_text p <> EmptyString) /\
  (forall t, textHandle t ∈ trace p -> t <> EmptyString).

(** The empty-element invariant: the flag set by [/] is only up between
    that character and the end of the tag, on a tag that is neither a
    definition nor a closing tag. *)
Definition empty_element_invariant (p : Parser) : Prop :=
  m_is_tag_no_body p = true ->
  (m_state p = 7 \/ m_state p = -1) /\
  m_is_style p = false /\ m_is_closing_tag p = false.

(** The events of the loop: every event but the two document events. *)
Definition scan_event (e : Event) : Prop :=
  e <> documentStart /\ e <> documentEnd.

(** The parser a call of [parse] leaves behind on a fresh parser bound to
    [doc], whether the call returns or throws. *)
Definition parser_after (sink : list Event -> Event -> bool) (doc : string)
  : Parser :=
  match parse sink (fresh doc) with
  | Ok p => p
  | Throw _ p => p
  | Undefined => fresh doc
  end.

(** The parser one run of the loop body leaves behind. *)
Definition body_after (sink : list Event -> Event -> bool) (p : Parser)
  : Parser :=
  match parse_body sink p with
  | Ok p' => p'
  | Throw _ p' => p'
  | Undefined => p
  end.

(** *** The text of a tag

    The characters the table accepts at each place of a tag: the first
    character of a tag name (rows 2 and 17), the later ones (row 3), the
    first character of an attribute name (row 5), the later ones (row 11),
    and the characters of an attribute value (rows 13 and 14). *)
Definition name_start (c : ascii) : bool :=
  match getSymbolType c with
  | UNDERLINE | DIGIT | ALPHA => true
  | _ => false
  end.

Definition name_char (c : ascii) : bool :=
  match getSymbolType c with
  | MINUS | UNDERLINE | DIGIT | ALPHA | COLON => true
  | _ => false
  end.

Definition attribute_start (c : ascii) : bool :=
  match getSymbolType c with
  | ALPHA => true
  | _ => false
  end.

Definition attribute_char (c : ascii) : bool :=
  match getSymbolType c with
  | MINUS | UNDERLINE | DIGIT | ALPHA => true
  | _ => false
  end.

Definition value_char (c : ascii) : bool :=
  match getSymbolType c with
  | QUOTE => false
  | _ => true
  end.

Definition valid_name (name : string) : bool :=
  match list_ascii_of_string name with
  | c :: l => name_start c && forallb name_char l
  | [] => false
  end.

Definition valid_attribute (a : string * string) : bool :=
  match list_ascii_of_string a.1 with
  | c :: l => attribute_start c && forallb attribute_char l
  | [] => false
  end
  && forallb value_char (list_ascii_of_string a.2).

(** One attribute as it is written in a tag: a blank, the name, [=], and
    the value between quotation marks. *)
Definition attribute_text (a : string * string) : list ascii :=
  (" " :: list_ascii_of_string a.1)%char
  ++ ("=" :: "034" :: list_ascii_of_string a.2)%char ++ ["034"%char].

(** The tags that carry attributes: [<name ...>], [<name .../>] and
    [<?name ...?>]. *)
Inductive TagKind : Type := StartTag | EmptyTag | DefinitionTag.

(** What follows [<] and what precedes [>] in a tag of each kind. *)
Definition tag_prefix (kind : TagKind) : list ascii :=
  match kind with
  | DefinitionTag => ["?"%char]
  | _ => []
  end.

Definition tag_suffix (kind : TagKind) : list ascii :=
  match kind with
  | StartTag => []
  | EmptyTag => ["/"%char]
  | DefinitionTag => ["?"%char]
  end.

(** A tag with its attributes in the order they are written. *)
Definition tag_text (kind : TagKind) (name : string)
    (attrs : list (string * string)) : list ascii :=
  ("<"%char :: tag_prefix kind)
  ++ list_ascii_of_string name
  ++ concat (map attribute_text attrs)
  ++ tag_suffix kind ++ [">"%char].

(** The events of a tag of each kind. *)
Definition tag_events (kind : TagKind) (name : string) (m : stringmap)
  : list Event :=
  match kind with
  | StartTag => [elementStart name m]
  | EmptyTag => [elementStart name m; elementEnd name]
  | DefinitionTag => [definitionHandle name m]
  end.

(** The definition flag while a tag of each kind is read. *)
Definition is_definition (kind : TagKind) : bool :=
  match kind with
  | DefinitionTag => true
  | _ => false
  end.

(** The value of the first attribute named [k] in [attrs]. *)
Fixpoint first_value (k : string) (attrs : list (string * string))
  : option string :=
  match attrs with
  | [] => None
  | a :: tl => if String.eqb a.1 k then Some a.2 else first_value k tl
  end.

(** A parser idle between tags, with nothing left over from a tag. *)
Definition idle (p : Parser) : Prop :=
  m_state p = 8 /\ m_stop_flag p = false /\
  m_is_style p = false /\ m_is_closing_tag p = false /\
  m_is_tag_no_body p = false /\
  m_tag p = EmptyString /\ m_attributes p = ∅ /\
  m_attribute_first p = EmptyString /\ m_attribute_second p = EmptyString.

(** What the scan of a tag reads and writes. *)
Definition tag_view (p : Parser) :=
  (m_state p, m_tag p, m_attributes p, m_attribute_first p,
   m_attribute_second p,
   (m_is_style p, m_is_closing_tag p, m_is_tag_no_body p, m_stop_flag p),
   trace p).

(** *** Documents of the examples *)

(** [<a x="1"><b/>text</a>] *)
Definition element_document : string :=
  "<a x=" +:+ quot +:+ "1" +:+ quot +:+ "><b/>text</a>".

(** The same document after a definition tag. *)
Definition defined_document : string := "<?xml?>" +:+ element_document.

(** [<?x?></ <?a b="1"?]: a definition tag opened while the closing-tag
    flag of an abandoned [</] is still up, read up to its last [?]. *)
Definition closing_definition_prefix : string :=
  "<?x?></ <?a b=" +:+ quot +:+ "1" +:+ quot +:+ "?".

(** [<?x?></a b="1"]: a closing tag with an attribute, up to its [>]. *)
Definition closing_attribute_prefix : string :=
  "<?x?></a b=" +:+ quot +:+ "1" +:+ quot.

(** *** Parsers of the examples *)

(** A parser that read [<?x?><b/] and met the end of the stream. *)
Definition empty_element_parser : Parser := parser_after never "<?x?><b/".

(** A parser that read [<?x?></a b="1"] and met the end of the stream. *)
Definition closing_attribute_parser : Parser :=
  parser_after never closing_attribute_prefix.

(** A parser idle after the definition tag [<?x?>]. *)
Definition idle_parser : Parser := parser_after never "<?x?>".

(** The idle parser bound to a stream that holds [<!--a--b-->]. *)
Definition comment_parser : Parser :=
  bind (stream_of "<!--a--b-->") idle_parser.

(** Two attributes of the same name. *)
Definition twice_b : list (string * string) := [("b", "1"); ("b", "2")].

(** *** Vocabulary of the further properties *)

(** The states in which no tag is being read: the search for the next tag
    (2, 8), text (10) and comments (18 to 23). *)
Definition between_tags (s : Z) : bool :=
  (s =? 2) || (s =? 8) || (s =? 10) || ((18 <=? s) && (s <=? 23)).

(** The states the table enters, or routes through, between tags: the
    states above and the fictive states 16, 24 and 25. *)
Definition enters_between_tags (s : Z) : bool :=
  between_tags s || (s =? 16) || (s =? 24) || (s =? 25).

(** Nothing of a tag is held. *)
Definition tag_fields_clear (p : Parser) : Prop :=
  m_tag p = EmptyString /\ m_attributes p = ∅ /\
  m_attribute_first p = EmptyString /\ m_attribute_second p = EmptyString /\
  m_is_style p = false /\ m_is_closing_tag p = false /\
  m_is_tag_no_body p = false.

(** Between tags nothing of a tag is held, and outside text the text
    buffer is empty. *)
Definition between_tags_invariant (p : Parser) : Prop :=
  between_tags (m_state p) = true ->
  tag_fields_clear p /\ (m_state p <> 10 -> m_text p = EmptyString).

(** The state is the error value or one of the 26 states. *)
Definition state_in_range (p : Parser) : Prop := -1 <= m_state p <= 25.


(** Apply [f] to the parser of a result. *)
Definition map_result (f : Parser -> Parser) (r : Result) : Result :=
  match r with
  | Ok p => Ok (f p)
  | Throw e p => Throw e (f p)
  | Undefined => Undefined
  end.


(** White space, as the classifier sees it. *)
Definition is_blank (c : ascii) : bool :=
  match getSymbolType c with
  | DELIMITER => true
  | _ => false
  end.

Fixpoint skip_blanks (cs : list ascii) : list ascii :=
  match cs with
  | [] => []
  | c :: t => if is_blank c then skip_blanks t else cs
  end.

(** After its leading white space, [cs] goes on with something other than
    [<?]: a character other than [<], or [<] and a character other than
    [?]. *)
Definition rejected_start (cs : list ascii) : bool :=
  match skip_blanks cs with
  | [] => false
  | c :: t =>
      match getSymbolType c with
      | TAG_BEGIN =>
          match t with
          | [] => false
          | d :: _ =>
              match getSymbolType d with
              | QUESTION => false
              | _ => true
              end
          end
      | _ => true
      end
  end.

(** A character other than [<]. *)
Definition no_tag_begin (c : ascii) : bool :=
  match getSymbolType c with
  | TAG_BEGIN => false
  | _ => true
  end.

(** What the scan of text reads and writes. *)
Definition text_view (p : Parser) :=
  (m_state p, m_text p, m_stop_flag p, trace p).

(** How a tag opens: [<], [<?] or [</]. *)
Inductive TagOpening : Type := OpenStart | OpenDefinition | OpenClosing.

Definition opening_text (o : TagOpening) : list ascii :=
  match o with
  | OpenStart => []
  | OpenDefinition => ["?"%char]
  | OpenClosing => ["/"%char]
  end.

(** The definition flag and the closing-tag flag after the opening. *)
Definition opening_flags (o : TagOpening) : bool * bool :=
  match o with
  | OpenStart => (false, false)
  | OpenDefinition => (true, false)
  | OpenClosing => (false, true)
  end.

(** A tag up to, and without, what ends it. *)
Definition tag_head (o : TagOpening) (name : string)
    (attrs : list (string * string)) : list ascii :=
  ("<"%char :: opening_text o)
  ++ list_ascii_of_string name ++ concat (map attribute_text attrs).

(** The attribute collection of a tag. *)
Definition attributes_of (attrs : list (string * string)) : stringmap :=
  foldl (fun m a => map_insert a.1 a.2 m) ∅ attrs.

(** Every minus sign of [l] is followed by a character other than the
    minus sign: [l] holds no two adjacent minus signs and does not end with
    one. *)
Fixpoint lone_minuses (l : list ascii) : bool :=
  match l with
  | [] => true
  | c :: t =>
      (if Ascii.eqb c "-" then
         match t with
         | [] => false
         | d :: _ => negb (Ascii.eqb d "-")
         end
       else true)
      && lone_minuses t
  end.

(** [l] without the character that follows each minus sign. *)
Fixpoint drop_after_minus (l : list ascii) : list ascii :=
  match l with
  | [] => []
  | c :: t =>
      if Ascii.eqb c "-" then
        "-"%char :: match t with
                    | [] => []
                    | _ :: t' => drop_after_minus t'
                    end
      else c :: drop_after_minus t
  end.

(** [Exception::what], on the number the exception was built with. *)
Definition what (m_errno : Z) : string :=
  if m_errno =? 200 then "Error: closing style-tag"
  else if m_errno =? 201 then "Error: closing tag without body"
  else if m_errno =? 202 then "Error: closing tag with attributes"
  else if m_errno =? 203 then "Error: bad input stream"
  else if m_errno =? 204 then "Error: parsing"
  else "Unknown error".


(** The error of a tag that [/] or [?] may not end: [/] on a definition tag
    or a closing tag, [?] on a tag that did not open with [<?]. *)
Definition marker_error (o : TagOpening) (e : ascii) : option ErrorCodes :=
  match getSymbolType e, o with
  | SLASH, OpenDefinition => Some KISAX_ERROR_CLOSE_STYLE_TAG
  | SLASH, OpenClosing => Some KISAX_ERROR_CLOSING_TAG_WITH_NO_BODY
  | QUESTION, OpenStart => Some KISAX_ERROR_CLOSE_STYLE_TAG
  | QUESTION, OpenClosing => Some KISAX_ERROR_CLOSE_STYLE_TAG
  | _, _ => None
  end.


(** The parser the loop leaves behind. *)
Definition loop_after (sink : list Event -> Event -> bool)
    (cs : list ascii) (p : Parser) : Parser :=
  match parse_loop sink cs p with
  | Ok p' => p'
  | Throw _ p' => p'
  | Undefined => p
  end.

(** The empty-element parser about to read [>] with [<c/>] behind it. *)
Definition before_tag_end : Parser :=
  set_current_char ">"
    (set_is (Some (stream_of "<c/>")) empty_element_parser).

(** A fresh parser about to read a letter. *)
Definition before_letter : Parser := set_current_char "a" (fresh "a").

(** * Properties *)

(** ** The classifier *)

Lemma getSymbolType_minus c : getSymbolType c = MINUS <-> c = "-"%char.
Proof.
  destruct c as [[] [] [] [] [] [] [] []]; vm_compute; split; congruence.
Qed.

Lemma getSymbolType_tag_end c : getSymbolType c = TAG_END <-> c = ">"%char.
Proof.
  destruct c as [[] [] [] [] [] [] [] []]; vm_compute; split; congruence.
Qed.

Lemma symbol_value_range y : 0 <= symbol_value y <= 13.
Proof. destruct y; simpl; lia. Qed.

(** ** The transition table *)

Lemma _states_length : length _states = 364%nat.
Proof. reflexivity. Qed.

Lemma _states_range : Forall (fun s => -1 <= s <= 25) _states.
Proof. apply (bool_decide_unpack _). vm_compute. exact I. Qed.

Lemma m_states_Some i s :
  m_states i = Some s -> 0 <= i < 364 /\ -1 <= s <= 25.
Proof.
  unfold m_states. destruct (Z.ltb_spec i 0); [discriminate|]. intros Hs.
  split.
  - apply lookup_lt_Some in Hs. rewrite _states_length in Hs. lia.
  - exact (proj1 (Forall_lookup _ _) _states_range _ _ Hs).
Qed.

(** A defined transition leaves one of the 26 states. *)
Lemma transition_source s y s' :
  m_states (s * MAXTOKEN + symbol_value y) = Some s' -> 0 <= s <= 25.
Proof.
  intros H. apply m_states_Some in H as [H _].
  pose proof (symbol_value_range y). unfold MAXTOKEN in *. lia.
Qed.

Lemma state_enum s :
  0 <= s <= 25 ->
  s = 0 \/ s = 1 \/ s = 2 \/ s = 3 \/ s = 4 \/ s = 5 \/ s = 6 \/ s = 7 \/
  s = 8 \/ s = 9 \/ s = 10 \/ s = 11 \/ s = 12 \/ s = 13 \/ s = 14 \/
  s = 15 \/ s = 16 \/ s = 17 \/ s = 18 \/ s = 19 \/ s = 20 \/ s = 21 \/
  s = 22 \/ s = 23 \/ s = 24 \/ s = 25.
Proof. lia. Qed.

Ltac split_or H :=
  repeat match type of H with
         | _ \/ _ => destruct H as [H | H]
         end.

(** Enumerate the table: every source state and every symbol. *)
Ltac table_enum H :=
  let Hs := fresh "Hs" in
  match type of H with
  | m_states (?s * MAXTOKEN + symbol_value ?y) = Some _ =>
      pose proof (state_enum s (transition_source s y _ H)) as Hs;
      split_or Hs; subst s; destruct y; vm_compute in H;
      try discriminate H
  end.

(** Text ends only out of the text-reading state. *)
Lemma into_16 s y :
  m_states (s * MAXTOKEN + symbol_value y) = Some 16 -> s = 10.
Proof. intros H. table_enum H; reflexivity. Qed.

(** The empty-element state is left by [>] only. *)
Lemma from_7 y s' :
  m_states (7 * MAXTOKEN + symbol_value y) = Some s' ->
  s' = -1 \/ (s' = 6 /\ y = TAG_END).
Proof. destruct y; vm_compute; intros [= <-]; auto. Qed.

Lemma from_error y : m_states (-1 * MAXTOKEN + symbol_value y) = None.
Proof. destruct y; reflexivity. Qed.

Section Properties.

Variable sink : list Event -> Event -> bool.

Lemma push_back_nonempty s c : push_back s c <> EmptyString.
Proof. destruct s; discriminate. Qed.

Ltac unfold_rules :=
  unfold do_nothing, do_style_on, do_tag_pushback, do_commentary_pushback,
    do_commentary_end, do_comment_minus_mark, do_tag_clear, do_text_end,
    do_attribute_store, do_attribute_first_pushback,
    do_attribute_second_pushback, do_is_style_on, do_tag_end,
    do_tag_wobody_close, do_tag_is_closing, do_text_pushback, do_all_clear,
    reset, init, bind, call, stop in *.

(** Invert one run of the loop body: the table has an entry, which is the
    error value or one of the 26 states, whose rule then ran. *)
Ltac body_inv H s' Ht :=
  unfold parse_body in H;
  match type of H with
  | context [m_states ?i] =>
      destruct (m_states i) as [s'|] eqn:Ht; [|discriminate H]
  end;
  let Hr := fresh "Hr" in
  let He := fresh "He" in
  pose proof (proj2 (m_states_Some _ _ Ht)) as Hr;
  assert (s' = -1 \/ 0 <= s' <= 25) as [He | He] by lia;
  [ | apply state_enum in He; split_or He ]; subst s'; clear Hr;
  cbv [m_rules _rules lookup list_lookup Z.ltb Z.compare Z.to_nat Pos.to_nat
       Pos.iter_op Nat.add] in H.

Lemma body_keeps_text_invariant p r p' :
  parse_body sink p = r -> parser_of r = Some p' ->
  text_invariant p -> text_invariant p'.
Proof.
  intros H Hp [Hstate Htrace].
  destruct r as [p1|e p1|]; simplify_eq/=; body_inv H s' Ht;
    unfold_rules; repeat first [progress cbn in H | case_match];
    simplify_eq; split; cbn; intros;
    repeat match goal with
           | |- push_back _ _ <> _ => apply push_back_nonempty
           | H : _ ∈ _ ++ _ |- _ =>
               apply elem_of_app in H as [H | ?%list_elem_of_singleton]
           end;
    simplify_eq; eauto; try lia.
  all: apply Hstate, (into_16 _ _ Ht).
Qed.

Lemma body_keeps_empty_element_invariant p r p' :
  parse_body sink p = r -> parser_of r = Some p' ->
  empty_element_invariant p -> empty_element_invariant p'.
Proof.
  intros H Hp Hinv.
  destruct r as [p1|e p1|]; simplify_eq/=; body_inv H s' Ht;
    unfold_rules; repeat first [progress cbn in H | case_match];
    simplify_eq; intros Hn; cbn in *; try discriminate Hn; auto;
    destruct (Hinv Hn) as ([Hs | Hs] & ? & ?); rewrite Hs in Ht;
    try (rewrite from_error in Ht; discriminate Ht);
    apply from_7 in Ht; first [lia | congruence | auto].
Qed.

Lemma call_keeps_text_invariant e p :
  (forall t, e <> textHandle t) -> text_invariant p ->
  text_invariant (call sink e p).
Proof.
  intros He [Hstate Htrace]. unfold call, stop.
  split; destruct (sink _ _); cbn; auto; intros t Ht;
    apply elem_of_app in Ht as [Ht | Ht%list_elem_of_singleton];
    eauto; symmetry in Ht; destruct (He _ Ht).
Qed.

Lemma call_keeps_empty_element_invariant e p :
  empty_element_invariant p -> empty_element_invariant (call sink e p).
Proof. unfold call, stop. destruct (sink _ _); auto. Qed.

(** Both invariants hold of every parser that occurs in an execution. *)
Lemma reachable_invariants p :
  reachable sink p -> text_invariant p /\ empty_element_invariant p.
Proof.
  induction 1 as [junk src|s p _ [IHt IHe]|b p _ [IHt IHe]|p _ [IHt IHe]
                 |p _ [IHt IHe]|p _ [IHt IHe]|c p _ [IHt IHe]
                 |p p' _ [IHt IHe] Hb|p e p' _ [IHt IHe] Hb].
  - split; [split|]; cbn; [lia | intros t Ht | discriminate].
    by apply elem_of_nil in Ht.
  - split; [exact IHt | exact IHe].
  - split; [exact IHt | exact IHe].
  - split; [destruct IHt; split|]; cbn; [lia | auto | discriminate].
  - split; [apply call_keeps_text_invariant; [discriminate | done]|].
    by apply call_keeps_empty_element_invariant.
  - split; [apply call_keeps_text_invariant; [discriminate | done]|].
    by apply call_keeps_empty_element_invariant.
  - split; [exact IHt | exact IHe].
  - split; [eapply body_keeps_text_invariant
           | eapply body_keeps_empty_element_invariant]; eauto.
  - split; [eapply body_keeps_text_invariant
           | eapply body_keeps_empty_element_invariant]; eauto.
Qed.


(** The loop body only appends to the trace, and never a document event. *)
Lemma body_trace p r p' :
  parse_body sink p = r -> parser_of r = Some p' ->
  exists evs, trace p' = trace p ++ evs /\ Forall scan_event evs.
Proof.
  intros H Hp.
  destruct r as [p1|e p1|]; simplify_eq/=; body_inv H s' Ht;
    unfold_rules; repeat first [progress cbn in H | case_match];
    simplify_eq; cbn; rewrite <- ?(assoc_L (++)); cbn;
    try (by exists []; rewrite (right_id_L [] (++)));
    eexists; (split; [reflexivity|]); repeat constructor; discriminate.
Qed.

Lemma loop_trace cs : forall p r p',
  parse_loop sink cs p = r -> parser_of r = Some p' ->
  exists evs, trace p' = trace p ++ evs /\ Forall scan_event evs.
Proof.
  induction cs as [|c rest IH]; intros p r p' H Hp; cbn in H.
  - subst r. simplify_eq/=. exists []. by rewrite (right_id_L [] (++)).
  - destruct (m_stop_flag p).
    + subst r. simplify_eq/=. exists []. by rewrite (right_id_L [] (++)).
    + destruct (parse_body sink _) as [p1|e p1|] eqn:Hb; cbn in H.
      * destruct (body_trace _ _ p1 Hb eq_refl) as (evs1 & E1 & F1).
        destruct (IH _ _ _ H Hp) as (evs2 & E2 & F2).
        exists (evs1 ++ evs2). rewrite E2, E1. cbn.
        rewrite (assoc_L (++)). split; [done | by apply Forall_app].
      * subst r. simplify_eq/=. exact (body_trace _ _ p' Hb eq_refl).
      * subst r. discriminate Hp.
Qed.

(** The parsers the loop passes through all occur in an execution. *)
Lemma loop_reachable cs : forall p r p',
  reachable sink p -> parse_loop sink cs p = r -> parser_of r = Some p' ->
  reachable sink p'.
Proof.
  induction cs as [|c rest IH]; intros p r p' Hr H Hp; cbn in H.
  - subst r. simplify_eq/=. by apply (reachable_bind sink).
  - assert (Hg : reachable sink
              (set_current_char c
                 (set_is (Some (Istream rest false false false)) p))).
    { apply reachable_get. by apply (reachable_bind sink). }
    destruct (m_stop_flag p).
    + subst r. by simplify_eq/=.
    + destruct (parse_body sink _) as [p1|e p1|] eqn:Hb; cbn in H.
      * eapply IH; [|exact H|exact Hp]. eapply reachable_body; eauto.
      * subst r. simplify_eq/=. eapply reachable_throw; eauto.
      * subst r. discriminate Hp.
Qed.

(** [parse] maps parsers that occur in an execution to such parsers. *)
Lemma parse_reachable p r p' :
  reachable sink p -> parse sink p = r -> parser_of r = Some p' ->
  reachable sink p'.
Proof.
  intros Hr H Hp. unfold parse in H.
  destruct (m_is p) as [s|] eqn:Hs; [|subst r; by simplify_eq/=].
  set (p0 := set_stop_flag false
               (if m_stop_flag p then p else call sink documentStart p)) in H.
  assert (H0 : reachable sink p0).
  { apply reachable_flag. destruct (m_stop_flag p); [done|].
    by apply reachable_documentStart. }
  assert (Hw : forall r1 p1, parse_while sink s p0 = r1 ->
                 parser_of r1 = Some p1 -> reachable sink p1).
  { intros r1 p1 Hw Hp1. unfold parse_while in Hw. destruct (good s).
    - eapply loop_reachable; eauto.
    - subst r1. simplify_eq/=. by apply (reachable_bind sink). }
  destruct (parse_while sink s p0) as [p1|e p1|] eqn:Hw1; cbn in H.
  - specialize (Hw _ p1 eq_refl eq_refl). unfold parse_end in H.
    destruct (_ && _); subst r; simplify_eq/=; [done|].
    by apply reachable_documentEnd.
  - subst r. simplify_eq/=. exact (Hw _ _ eq_refl eq_refl).
  - subst r. discriminate Hp.
Qed.

Lemma scan_events_no_documentStart evs :
  Forall scan_event evs -> documentStart ∉ evs.
Proof.
  intros H Hin. apply (proj1 (Forall_forall _ _) H) in Hin. by destruct Hin.
Qed.

(** With the stop flag up, [parse] skips [documentStart], clears the flag
    and scans. *)
Lemma parse_resumes p s :
  m_stop_flag p = true -> m_is p = Some s ->
  parse sink p = parse_while sink s (set_stop_flag false p) >>= parse_end sink.
Proof. intros Hf Hs. unfold parse. by rewrite Hs, Hf. Qed.

Lemma parse_resumes_trace p p' :
  m_stop_flag p = true -> parser_of (parse sink p) = Some p' ->
  exists evs, trace p' = trace p ++ evs /\ documentStart ∉ evs.
Proof.
  intros Hf Hp. unfold parse in Hp. rewrite Hf in Hp.
  destruct (m_is p) as [s|]; cbn in Hp.
  2:{ simplify_eq. exists []. rewrite (right_id_L [] (++)). split; [done|].
      apply not_elem_of_nil. }
  assert (Hw : forall p1, parser_of (parse_while sink s (set_stop_flag false p))
                 = Some p1 ->
               exists evs, trace p1 = trace p ++ evs /\ Forall scan_event evs).
  { intros p1 Hp1. unfold parse_while in Hp1. destruct (good s).
    - exact (loop_trace _ _ _ _ eq_refl Hp1).
    - simplify_eq/=. exists []. by rewrite (right_id_L [] (++)). }
  destruct (parse_while sink s _) as [p1|e p1|]; cbn in Hp.
  - destruct (Hw _ eq_refl) as (evs & E & F). unfold parse_end in Hp.
    destruct (_ && _); simplify_eq/=.
    + exists evs. split; [done | by apply scan_events_no_documentStart].
    + exists (evs ++ [documentEnd]). unfold call, stop.
      split; [destruct (sink _ _); cbn; by rewrite E, (assoc_L (++))|].
      intros [Hin | Hin%list_elem_of_singleton]%elem_of_app; [|done].
      by apply scan_events_no_documentStart in Hin.
  - simplify_eq/=. destruct (Hw _ eq_refl) as (evs & E & F).
    exists evs. split; [done | by apply scan_events_no_documentStart].
  - discriminate Hp.
Qed.


(** C3.  On a parser that occurs in an execution with the empty-element
    flag up, [do_tag_end] calls [elementStart] with the tag name and the
    attribute collection and then [elementEnd] with the same name, and
    nothing else; and every run of the loop body that returns from such a
    parser is that run of [do_tag_end]. *)
Theorem self_closing_tag_events p :
  reachable sink p -> m_is_tag_no_body p = true ->
  (exists p', do_tag_end sink p = Ok p' /\
     trace p' = trace p ++ [elementStart (m_tag p) (m_attributes p);
                            elementEnd (m_tag p)] /\
     m_state p' = 8) /\
  (forall c p', parse_body sink (set_current_char c p) = Ok p' ->
     c = ">"%char /\
     trace p' = trace p ++ [elementStart (m_tag p) (m_attributes p);
                            elementEnd (m_tag p)]).
Proof.
  intros Hr Hn.
  destruct (proj2 (reachable_invariants p Hr) Hn) as (Hst & Hsty & Hcl).
  assert (Hd : forall p0, m_is_tag_no_body p0 = true -> m_is_style p0 = false ->
                 m_is_closing_tag p0 = false ->
                 exists p', do_tag_end sink p0 = Ok p' /\
                   trace p' = trace p0 ++ [elementStart (m_tag p0) (m_attributes p0);
                                           elementEnd (m_tag p0)] /\
                   m_state p' = 8).
  { intros p0 H1 H2 H3. unfold do_tag_end, call, stop. rewrite H2, H3. cbn.
    destruct (sink _ _); cbn; rewrite H1; destruct (sink _ _); cbn;
      eexists; rewrite <- (assoc_L (++)); done. }
  split; [by apply Hd|].
  intros c p' Hb. unfold parse_body in Hb. cbn in Hb.
  destruct Hst as [Hst | Hst]; rewrite Hst in Hb.
  2:{ by rewrite from_error in Hb. }
  destruct (m_states _) as [s'|] eqn:Ht; [|done].
  apply from_7 in Ht as [-> | [-> Hy]]; [done|].
  apply getSymbolType_tag_end in Hy. split; [done|].
  change (do_tag_end sink (set_state 6 (set_current_char c p)) = Ok p') in Hb.
  destruct (Hd (set_state 6 (set_current_char c p))) as (p2 & E & T & _);
    [done..|].
  rewrite E in Hb. by simplify_eq.
Qed.

(** C9.  After [stop()] is called on a bound parser while no [parse()] is
    running, the next [parse()] calls no [documentStart], clears the stop
    flag and runs the loop from the parser as it was; none of the events of
    that call is [documentStart].  Without the [stop()], the same call
    differs only by the [documentStart] it begins with. *)
Theorem stop_before_parse p s :
  m_is p = Some s ->
  parse sink (stop p)
    = parse_while sink s (set_stop_flag false p) >>= parse_end sink /\
  (forall p', parser_of (parse sink (stop p)) = Some p' ->
     exists evs, trace p' = trace p ++ evs /\ documentStart ∉ evs) /\
  (m_stop_flag p = false ->
   parse sink p
     = parse_while sink s (set_stop_flag false (call sink documentStart p))
       >>= parse_end sink).
Proof.
  intros Hs. split; [|split].
  - by rewrite (parse_resumes (stop p) s).
  - intros p' Hp. by apply (parse_resumes_trace (stop p)).
  - intros Hf. unfold parse. by rewrite Hs, Hf.
Qed.

(** C10.  [textHandle] is never called on the empty string: in the trace a
    call of [parse] leaves behind, on any parser that occurs in an
    execution, every [textHandle] event carries at least one character. *)
Theorem textHandle_never_empty p p' t :
  reachable sink p -> parser_of (parse sink p) = Some p' ->
  textHandle t ∈ trace p' -> t <> EmptyString.
Proof.
  intros Hr Hp. apply (parse_reachable p _ p' Hr eq_refl) in Hp.
  apply reachable_invariants in Hp as [[_ Ht] _]. apply Ht.
Qed.

(** ** One iteration of the loop *)

(** A good stream is its unread characters with the three bits down. *)
Lemma good_stream s :
  good s = true -> s = Istream (pending s) false false false.
Proof. destruct s as [cs [] [] []]; cbn; intros H; by try discriminate H. Qed.

(** The loop is the loop of [parse]: extract with [get], test the stop
    flag, run the body. *)
Lemma parse_loop_get cs p :
  parse_loop sink cs p
    = match get (Istream cs false false false) with
      | (None, s') => Ok (set_is (Some s') p)
      | (Some c, s') =>
          let p := set_current_char c (set_is (Some s') p) in
          if m_stop_flag p then Ok p
          else parse_body sink p >>= parse_loop sink (pending s')
      end.
Proof. by destruct cs. Qed.

Lemma parse_loop_cons c rest p :
  m_stop_flag p = false ->
  parse_loop sink (c :: rest) p
    = parse_body sink
        (set_current_char c (set_is (Some (Istream rest false false false)) p))
      >>= parse_loop sink rest.
Proof. intros H. cbn. by rewrite H. Qed.

Lemma parse_body_rule p y s' rule :
  getSymbolType (m_current_char p) = y ->
  m_states (m_state p * MAXTOKEN + symbol_value y) = Some s' ->
  0 <= s' -> m_rules sink s' = Some rule ->
  parse_body sink p = rule (set_state s' p).
Proof.
  intros Hy Ht Hs Hr. unfold parse_body. rewrite Hy, Ht. cbn.
  destruct (Z.ltb_spec s' 0); [lia|]. by rewrite Hr.
Qed.

Lemma parse_body_error p y :
  getSymbolType (m_current_char p) = y ->
  m_states (m_state p * MAXTOKEN + symbol_value y) = Some (-1) ->
  parse_body sink p = Throw KISAX_ERROR_PARSING (set_state (-1) p).
Proof. intros Hy Ht. unfold parse_body. by rewrite Hy, Ht. Qed.

(** C4 (as amended).  When [do_tag_end] runs with the definition flag down,
    the closing-tag flag up and a non-empty attribute collection, it throws
    [KISAX_ERROR_CLOSING_TAG_WITH_ATTRIBUTES] before any handler is called:
    the loop and [parse] fail with that error and no [elementEnd] is
    emitted for the tag. *)
Theorem closing_tag_with_attributes p :
  m_is_style p = false -> m_is_closing_tag p = true -> m_attributes p <> ∅ ->
  do_tag_end sink p = Throw KISAX_ERROR_CLOSING_TAG_WITH_ATTRIBUTES p /\
  (forall rest,
     m_stop_flag p = false ->
     m_states (m_state p * MAXTOKEN + symbol_value TAG_END) = Some 6 ->
     exists p', parse_loop sink (">"%char :: rest) p
                  = Throw KISAX_ERROR_CLOSING_TAG_WITH_ATTRIBUTES p' /\
                trace p' = trace p) /\
  (forall s rest,
     m_is p = Some s -> good s = true -> pending s = ">"%char :: rest ->
     m_states (m_state p * MAXTOKEN + symbol_value TAG_END) = Some 6 ->
     exists p', parse sink p = Throw KISAX_ERROR_CLOSING_TAG_WITH_ATTRIBUTES p' /\
                trace p' = trace p ++
                           (if m_stop_flag p then [] else [documentStart])).
Proof.
  intros Hsty Hcl Hat.
  assert (Hd : forall p0, m_is_style p0 = false -> m_is_closing_tag p0 = true ->
                 m_attributes p0 = m_attributes p ->
                 do_tag_end sink p0
                   = Throw KISAX_ERROR_CLOSING_TAG_WITH_ATTRIBUTES p0).
  { intros p0 H1 H2 H3. unfold do_tag_end. rewrite H1, H2, H3.
    by rewrite bool_decide_eq_false_2. }
  assert (Hl : forall p0 rest, m_is_style p0 = false ->
                 m_is_closing_tag p0 = true ->
                 m_attributes p0 = m_attributes p -> m_stop_flag p0 = false ->
                 m_states (m_state p0 * MAXTOKEN + symbol_value TAG_END) = Some 6 ->
                 exists p', parse_loop sink (">"%char :: rest) p0
                              = Throw KISAX_ERROR_CLOSING_TAG_WITH_ATTRIBUTES p' /\
                            trace p' = trace p0).
  { intros p0 rest H1 H2 H3 H4 H5. rewrite parse_loop_cons by done.
    rewrite (parse_body_rule _ TAG_END 6 (do_tag_end sink)); [|done..].
    rewrite Hd by done. by eexists. }
  split; [by apply Hd|]. split; [intros; by apply Hl|].
  intros s rest Hs Hg Hpend Ht. unfold parse, parse_while.
  rewrite Hs, Hg, Hpend.
  destruct (m_stop_flag p) eqn:Hf.
  - destruct (Hl (set_stop_flag false p) rest) as (p' & E & T); [done..|].
    rewrite E. cbn. eexists. split; [done|].
    rewrite T. cbn. by rewrite (right_id_L [] (++)).
  - destruct (Hl (set_stop_flag false (call sink documentStart p)) rest)
      as (p' & E & T); try (unfold call, stop; by destruct (sink _ _)).
    rewrite E. cbn. eexists. split; [done|].
    rewrite T. unfold call, stop. by destruct (sink _ _).
Qed.

(** ** Comments *)

Lemma has_terminator_cons x l :
  has_terminator (x :: l) = starts_with_terminator (x :: l) || has_terminator l.
Proof. reflexivity. Qed.

Lemma has_terminator_tail x l :
  has_terminator (x :: l) = false -> has_terminator l = false.
Proof. rewrite has_terminator_cons. by intros [_ ?]%orb_false_elim. Qed.

Lemma has_terminator_head y l :
  has_terminator ("-"%char :: "-"%char :: y :: l) = false -> y <> ">"%char.
Proof.
  rewrite has_terminator_cons. intros [H _]%orb_false_elim ->. discriminate H.
Qed.

Lemma has_terminator_snoc c : forall pre,
  has_terminator (pre ++ ["-"; "-"]%char) = false -> c <> ">"%char ->
  has_terminator (pre ++ ["-"; "-"; c]%char) = false.
Proof.
  induction pre as [|x pre IH]; intros H Hc.
  - cbn. apply Ascii.eqb_neq in Hc. rewrite Hc. reflexivity.
  - rewrite <- !app_comm_cons, has_terminator_cons in *.
    apply orb_false_elim in H as [H1 H2]. rewrite (IH H2 Hc).
    rewrite orb_false_r. destruct pre as [|y [|z pre]]; cbn in *; try done.
Qed.

(** The four moves inside a comment body, and the failing one. *)
Lemma comment_minus p :
  m_state p = 20 \/ m_state p = 21 ->
  m_current_char p = "-"%char ->
  parse_body sink p = Ok (set_state 22 p).
Proof.
  intros Hs Hc.
  apply (parse_body_rule p MINUS 22 do_nothing); try done.
  - by apply getSymbolType_minus.
  - by destruct Hs as [-> | ->].
Qed.

Lemma comment_char p :
  m_state p = 20 \/ m_state p = 21 ->
  m_current_char p <> "-"%char ->
  parse_body sink p
    = Ok (set_comment (push_back (m_comment p) (m_current_char p))
            (set_state 21 p)).
Proof.
  intros Hs Hc.
  apply (parse_body_rule p (getSymbolType (m_current_char p)) 21
           do_commentary_pushback); try done.
  destruct (getSymbolType _) eqn:Hy;
    try (by destruct Hs as [-> | ->]).
  by apply getSymbolType_minus in Hy.
Qed.

Lemma comment_second_minus p :
  m_state p = 22 -> m_current_char p = "-"%char ->
  parse_body sink p = Ok (set_state 23 p).
Proof.
  intros Hs Hc.
  apply (parse_body_rule p MINUS 23 do_nothing); try done.
  - by apply getSymbolType_minus.
  - by rewrite Hs.
Qed.

Lemma comment_lone_minus p :
  m_state p = 22 -> m_current_char p <> "-"%char ->
  parse_body sink p
    = Ok (set_state 21 (set_comment (push_back (m_comment p) "-")
                          (set_state 24 p))).
Proof.
  intros Hs Hc.
  apply (parse_body_rule p (getSymbolType (m_current_char p)) 24
           (do_comment_minus_mark)); try done.
  destruct (getSymbolType _) eqn:Hy; try (by rewrite Hs).
  by apply getSymbolType_minus in Hy.
Qed.

Lemma comment_dashes_then_other p :
  m_state p = 23 -> m_current_char p <> ">"%char ->
  parse_body sink p = Throw KISAX_ERROR_PARSING (set_state (-1) p).
Proof.
  intros Hs Hc.
  apply (parse_body_error p (getSymbolType (m_current_char p))); try done.
  destruct (getSymbolType _) eqn:Hy; try (by rewrite Hs).
  by apply getSymbolType_tag_end in Hy.
Qed.

(** Inside a comment body, two minus signs that no terminator precedes and
    that [>] does not follow make the loop throw. *)
Lemma comment_dashes_raise c rest : forall pre p,
  m_stop_flag p = false ->
  ((m_state p = 20 \/ m_state p = 21) /\
   has_terminator (pre ++ ["-"; "-"; c]%char) = false) \/
  (m_state p = 22 /\
   has_terminator ("-"%char :: pre ++ ["-"; "-"; c]%char) = false) ->
  exists p',
    parse_loop sink (pre ++ "-"%char :: "-"%char :: c :: rest) p
      = Throw KISAX_ERROR_PARSING p'.
Proof.
  assert (Hlast : forall p x tl, m_stop_flag p = false -> m_state p = 23 ->
            x <> ">"%char ->
            exists p', parse_loop sink (x :: tl) p = Throw KISAX_ERROR_PARSING p').
  { intros p x tl Hf Hs Hx. rewrite parse_loop_cons by done.
    rewrite comment_dashes_then_other by done. by eexists. }
  induction pre as [|x pre IH]; intros p Hf Hcase.
  - cbn [app]. rewrite parse_loop_cons by done.
    destruct Hcase as [[Hs Ht] | [Hs Ht]].
    + rewrite comment_minus by done. cbn [bind_result].
      rewrite parse_loop_cons by done.
      rewrite comment_second_minus by done. cbn [bind_result].
      apply Hlast; try done. by apply has_terminator_head in Ht.
    + rewrite comment_second_minus by done. cbn [bind_result].
      by apply Hlast.
  - cbn [app]. rewrite parse_loop_cons by done.
    destruct Hcase as [[Hs Ht] | [Hs Ht]];
      destruct (decide (x = "-"%char)) as [-> | Hx].
    + rewrite comment_minus by done. cbn [bind_result].
      apply IH; [done|]. right. by split.
    + rewrite comment_char by done. cbn [bind_result].
      apply IH; [done|]. left. split; [by right|].
      by apply has_terminator_tail in Ht.
    + rewrite comment_second_minus by done. cbn [bind_result].
      destruct pre as [|y pre]; cbn [app] in *; apply Hlast; try done.
      by apply has_terminator_head in Ht.
    + rewrite comment_lone_minus by done. cbn [bind_result].
      apply IH; [done|]. left. split; [by right|].
      by apply has_terminator_tail, has_terminator_tail in Ht.
Qed.

(** The four characters that open a comment take an idle parser into the
    comment body without calling a handler. *)
Lemma comment_opener tl p :
  m_stop_flag p = false -> m_state p = 8 ->
  exists p1,
    parse_loop sink (["<"; "!"; "-"; "-"]%char ++ tl) p = parse_loop sink tl p1 /\
    m_state p1 = 20 /\ m_stop_flag p1 = false /\ trace p1 = trace p /\
    m_comment p1 = m_comment p.
Proof.
  intros Hf Hst. cbn [app].
  rewrite parse_loop_cons by done.
  rewrite (parse_body_rule _ TAG_BEGIN 2 do_nothing); try done.
  2:{ cbn. by rewrite Hst. }
  cbn [bind_result do_nothing]. rewrite parse_loop_cons by done.
  rewrite (parse_body_rule _ EXCLAMATION 18 do_nothing); try done.
  cbn [bind_result do_nothing]. rewrite parse_loop_cons by done.
  rewrite (parse_body_rule _ MINUS 19 do_nothing); try done.
  cbn [bind_result do_nothing]. rewrite parse_loop_cons by done.
  rewrite (parse_body_rule _ MINUS 20 do_nothing); try done.
  cbn [bind_result do_nothing]. by eexists.
Qed.

(** ** Tags and their attributes *)

Lemma push_back_append s c t :
  push_back s c +:+ t = s +:+ String c t.
Proof.
  unfold push_back. induction s as [|a s IH]; [reflexivity|].
  change (String a ((s +:+ String c EmptyString) +:+ t)
          = String a (s +:+ String c t)).
  by f_equal.
Qed.

Lemma append_empty_r s : s +:+ EmptyString = s.
Proof.
  induction s as [|a s IH]; [reflexivity|].
  change (String a (s +:+ EmptyString) = String a s). by f_equal.
Qed.

(** Expose the members of a parser whose view is known. *)
Ltac view_eq p H :=
  destruct p; unfold tag_view in H; cbn in H; simplify_eq.

(** Run a rule on an exposed parser and expose the parser it returns. *)
Ltac run_rule :=
  cbv [bind_result do_nothing do_tag_pushback do_attribute_first_pushback
       do_attribute_second_pushback do_attribute_store do_style_on
       do_is_style_on do_tag_wobody_close is_definition
       set_state set_current_char set_is set_text set_tag set_attributes
       set_attribute_first set_attribute_second set_comment set_is_style
       set_is_closing_tag set_is_tag_no_body set_stop_flag set_trace
       m_state m_current_char m_is m_text m_tag m_attributes
       m_attribute_first m_attribute_second m_comment m_is_style
       m_is_closing_tag m_is_tag_no_body m_stop_flag trace negb].

(** One iteration from a parser whose view is known. *)
Lemma loop_rule c tl p y s' rule :
  m_stop_flag p = false -> getSymbolType c = y ->
  m_states (m_state p * MAXTOKEN + symbol_value y) = Some s' ->
  0 <= s' -> m_rules sink s' = Some rule ->
  parse_loop sink (c :: tl) p
    = rule (set_state s'
              (set_current_char c
                 (set_is (Some (Istream tl false false false)) p)))
      >>= parse_loop sink tl.
Proof.
  intros Hf Hy Ht Hs Hr. rewrite parse_loop_cons by done.
  by rewrite (parse_body_rule _ y s' rule).
Qed.

(** The later characters of a tag name are appended to [m_tag]. *)
Lemma scan_name_chars tl : forall l p tg m sty tr,
  forallb name_char l = true ->
  tag_view p = (3, tg, m, EmptyString, EmptyString,
                (sty, false, false, false), tr) ->
  exists p1,
    parse_loop sink (l ++ tl) p = parse_loop sink tl p1 /\
    tag_view p1 = (3, tg +:+ string_of_list_ascii l, m, EmptyString,
                   EmptyString, (sty, false, false, false), tr).
Proof.
  induction l as [|c l IH]; intros p tg m sty tr Hl Hv.
  - exists p. cbn. by rewrite append_empty_r.
  - cbn in Hl. apply andb_prop in Hl as [Hc Hl]. cbn [app].
    view_eq p Hv.
    rewrite (loop_rule c _ _ (getSymbolType c) 3 do_tag_pushback);
      try done.
    2:{ unfold name_char in Hc. by destruct (getSymbolType c). }
    run_rule.
    edestruct IH as (p1 & -> & Hv1); [exact Hl | reflexivity |].
    exists p1. split; [done|]. rewrite Hv1. cbn.
    by rewrite push_back_append.
Qed.

(** The later characters of an attribute name are appended to
    [m_attribute_first]. *)
Lemma scan_attribute_chars tl : forall l p tg m k flags tr,
  forallb attribute_char l = true ->
  tag_view p = (11, tg, m, k, EmptyString, (flags, false), tr) ->
  exists p1,
    parse_loop sink (l ++ tl) p = parse_loop sink tl p1 /\
    tag_view p1 = (11, tg, m, k +:+ string_of_list_ascii l, EmptyString,
                   (flags, false), tr).
Proof.
  induction l as [|c l IH]; intros p tg m k flags tr Hl Hv.
  - exists p. cbn. by rewrite append_empty_r.
  - cbn in Hl. apply andb_prop in Hl as [Hc Hl]. cbn [app].
    view_eq p Hv.
    rewrite (loop_rule c _ _ (getSymbolType c) 11
               do_attribute_first_pushback); try done.
    2:{ unfold attribute_char in Hc. by destruct (getSymbolType c). }
    run_rule.
    edestruct IH as (p1 & -> & Hv1); [exact Hl | reflexivity |].
    exists p1. split; [done|]. rewrite Hv1. cbn.
    by rewrite push_back_append.
Qed.

(** The characters of an attribute value are appended to
    [m_attribute_second]. *)
Lemma scan_value_chars tl : forall l p s tg m k v flags tr,
  forallb value_char l = true -> s = 13 \/ s = 14 ->
  tag_view p = (s, tg, m, k, v, (flags, false), tr) ->
  exists p1 s1,
    parse_loop sink (l ++ tl) p = parse_loop sink tl p1 /\
    (s1 = 13 \/ s1 = 14) /\
    tag_view p1 = (s1, tg, m, k, v +:+ string_of_list_ascii l,
                   (flags, false), tr).
Proof.
  induction l as [|c l IH]; intros p s tg m k v flags tr Hl Hs Hv.
  - exists p, s. cbn. by rewrite append_empty_r.
  - cbn in Hl. apply andb_prop in Hl as [Hc Hl]. cbn [app].
    view_eq p Hv.
    rewrite (loop_rule c _ _ (getSymbolType c) 13
               do_attribute_second_pushback); try done.
    2:{ unfold value_char in Hc.
        by destruct Hs as [-> | ->]; destruct (getSymbolType c). }
    run_rule.
    edestruct IH as (p1 & s1 & -> & Hs1 & Hv1);
      [exact Hl | by left | reflexivity |].
    exists p1, s1. split; [done|]. split; [done|]. rewrite Hv1. cbn.
    by rewrite push_back_append.
Qed.

(** One attribute: its name and value are gathered and stored with
    [map_insert], and the two buffers are empty again. *)
Lemma scan_attribute tl a p s tg m flags tr :
  valid_attribute a = true -> s = 3 \/ s = 15 ->
  tag_view p = (s, tg, m, EmptyString, EmptyString, (flags, false), tr) ->
  exists p1,
    parse_loop sink (attribute_text a ++ tl) p = parse_loop sink tl p1 /\
    tag_view p1 = (15, tg, map_insert a.1 a.2 m, EmptyString, EmptyString,
                   (flags, false), tr).
Proof.
  intros Ha Hs Hv. unfold valid_attribute in Ha.
  destruct a as [ak av]. cbn [fst snd] in *.
  apply andb_prop in Ha as [Hk Hval].
  unfold attribute_text. cbn [fst snd].
  pose proof (string_of_list_ascii_of_string ak) as Eak.
  pose proof (string_of_list_ascii_of_string av) as Eav.
  destruct (list_ascii_of_string ak) as [|k0 k]; [done|].
  apply andb_prop in Hk as [Hk0 Hk].
  set (val := list_ascii_of_string av) in *. clearbody val.
  rewrite <- !(assoc_L (++)). cbn [app].
  view_eq p Hv.
  (* the blank *)
  rewrite (loop_rule " " _ _ DELIMITER 5 do_nothing); try done.
  2:{ by destruct Hs as [-> | ->]. }
  run_rule.
  (* the first character of the name *)
  rewrite (loop_rule k0 _ _ ALPHA 11 do_attribute_first_pushback); try done.
  2:{ unfold attribute_start in Hk0. by destruct (getSymbolType k0). }
  run_rule.
  (* the rest of the name *)
  edestruct (scan_attribute_chars
               ("="%char :: "034"%char :: val ++ "034"%char :: tl) k)
    as (p1 & -> & Hv1); [exact Hk | reflexivity |].
  view_eq p1 Hv1.
  rewrite (loop_rule "=" _ _ EQUAL 12 do_nothing); try done.
  run_rule.
  rewrite (loop_rule "034" _ _ QUOTE 14 do_nothing); try done.
  run_rule.
  (* the value *)
  edestruct (scan_value_chars ("034"%char :: tl) val)
    as (p2 & s2 & -> & Hs2 & Hv2); [exact Hval | by right | reflexivity |].
  view_eq p2 Hv2.
  rewrite (loop_rule "034" _ _ QUOTE 15 do_attribute_store); try done.
  2:{ by destruct Hs2 as [-> | ->]. }
  run_rule. eexists. split; [done|].
  by rewrite push_back_append.
Qed.

(** The attributes of a tag, stored in the order they are written. *)
Lemma scan_attributes tl : forall attrs p s tg m flags tr,
  forallb valid_attribute attrs = true -> s = 3 \/ s = 15 ->
  tag_view p = (s, tg, m, EmptyString, EmptyString, (flags, false), tr) ->
  exists p1 s1,
    parse_loop sink (concat (map attribute_text attrs) ++ tl) p
      = parse_loop sink tl p1 /\
    (s1 = 3 \/ s1 = 15) /\
    tag_view p1 = (s1, tg, foldl (fun m a => map_insert a.1 a.2 m) m attrs,
                   EmptyString, EmptyString, (flags, false), tr).
Proof.
  induction attrs as [|a attrs IH]; intros p s tg m flags tr Hall Hs Hv.
  - by exists p, s.
  - cbn in Hall. apply andb_prop in Hall as [Ha Hall].
    cbn [map concat foldl]. rewrite <- (assoc_L (++)).
    destruct (scan_attribute (concat (map attribute_text attrs) ++ tl)
                a p s tg m flags tr) as (p1 & -> & Hv1); [done..|].
    eapply IH; [done | by right | exact Hv1].
Qed.

(** First write wins: the collection built by [map_insert] maps a name to
    the value of its first occurrence. *)
Lemma map_insert_lookup k v m k' :
  map_insert k v m !! k'
    = match m !! k' with
      | Some w => Some w
      | None => if String.eqb k k' then Some v else None
      end.
Proof.
  unfold map_insert. destruct (String.eqb_spec k k') as [<- | Hne].
  - destruct (m !! k) eqn:E; [by rewrite E|].
    apply lookup_insert_eq.
  - destruct (m !! k) eqn:E; [by destruct (m !! k')|].
    rewrite lookup_insert_ne by done. by destruct (m !! k').
Qed.

Lemma foldl_map_insert_lookup k : forall attrs m,
  foldl (fun m a => map_insert a.1 a.2 m) m attrs !! k
    = match m !! k with
      | Some w => Some w
      | None => first_value k attrs
      end.
Proof.
  induction attrs as [|a attrs IH]; intros m; cbn [foldl first_value].
  - by destruct (m !! k).
  - rewrite IH, map_insert_lookup. destruct (m !! k); [done|].
    by destruct (String.eqb a.1 k).
Qed.

(** [do_tag_end] at the [>] of a tag of kind [kind]. *)
Lemma loop_tag_end tl kind p s tg m tr :
  m_states (s * MAXTOKEN + symbol_value TAG_END) = Some 6 ->
  tag_view p = (s, tg, m, EmptyString, EmptyString,
                (is_definition kind, false,
                 match kind with EmptyTag => true | _ => false end, false),
                tr) ->
  exists p',
    parse_loop sink (">"%char :: tl) p = parse_loop sink tl p' /\
    trace p' = tr ++ tag_events kind tg m.
Proof.
  intros Ht Hv. view_eq p Hv.
  rewrite (loop_rule ">" _ _ TAG_END 6 (do_tag_end sink)); try done.
  unfold do_tag_end, call, stop, do_all_clear. run_rule.
  destruct kind; run_rule;
    repeat (match goal with
            | |- context [sink ?evs ?e] => destruct (sink evs e)
            end; run_rule);
    eexists; (split; [reflexivity|]); cbn;
    by rewrite <- ?(assoc_L (++)).
Qed.

(** The opening of a tag up to the first character of its name. *)
Lemma scan_tag_open tl kind c0 p tr :
  name_start c0 = true ->
  tag_view p = (8, EmptyString, ∅, EmptyString, EmptyString,
                (false, false, false, false), tr) ->
  exists p1,
    parse_loop sink (("<"%char :: tag_prefix kind) ++ c0 :: tl) p
      = parse_loop sink tl p1 /\
    tag_view p1 = (3, String c0 EmptyString, ∅, EmptyString, EmptyString,
                   (is_definition kind, false, false, false), tr).
Proof.
  intros Hc0 Hv. view_eq p Hv. unfold name_start in Hc0.
  destruct kind; cbn [app tag_prefix is_definition];
    (rewrite (loop_rule "<" _ _ TAG_BEGIN 2 do_nothing); [|done..]);
    run_rule;
    try (rewrite (loop_rule "?" _ _ QUESTION 17 do_style_on); [|done..];
         run_rule);
    (rewrite (loop_rule c0 _ _ (getSymbolType c0) 3 do_tag_pushback);
       [|done|done|by destruct (getSymbolType c0)|done|done]);
    run_rule; by eexists.
Qed.

(** The closing of a tag: [>], after [/] for an empty-element tag and after
    [?] for a definition tag. *)
Lemma scan_tag_close tl kind p s tg m tr :
  s = 3 \/ s = 15 ->
  tag_view p = (s, tg, m, EmptyString, EmptyString,
                (is_definition kind, false, false, false), tr) ->
  exists p',
    parse_loop sink ((tag_suffix kind ++ [">"%char]) ++ tl) p
      = parse_loop sink tl p' /\
    trace p' = tr ++ tag_events kind tg m.
Proof.
  intros Hs Hv. destruct kind; cbn [app tag_suffix].
  - apply (loop_tag_end tl StartTag _ s tg m tr); [|done].
    by destruct Hs as [-> | ->].
  - view_eq p Hv.
    rewrite (loop_rule "/" _ _ SLASH 7 do_tag_wobody_close); try done;
      [|by destruct Hs as [-> | ->]].
    run_rule. by apply (loop_tag_end tl EmptyTag _ 7 tg m tr).
  - view_eq p Hv.
    rewrite (loop_rule "?" _ _ QUESTION 4 do_is_style_on); try done;
      [|by destruct Hs as [-> | ->]].
    run_rule. by apply (loop_tag_end tl DefinitionTag _ 4 tg m tr).
Qed.

(** C5.  A start tag, an empty-element tag or a definition tag, read by an
    idle parser, is reported to [elementStart] or [definitionHandle] with an
    attribute collection that maps every attribute name to the value of its
    first occurrence in the tag: later occurrences of a name are ignored. *)
Theorem duplicate_attributes_first_wins kind name attrs rest p :
  valid_name name = true -> forallb valid_attribute attrs = true ->
  idle p ->
  exists p' m,
    parse_loop sink (tag_text kind name attrs ++ rest) p
      = parse_loop sink rest p' /\
    trace p' = trace p ++ tag_events kind name m /\
    forall k, m !! k = first_value k attrs.
Proof.
  intros Hname Hattrs (Hst & Hf & Hsty & Hcl & Hnb & Htg & Hm & Hk & Hv).
  unfold valid_name in Hname. unfold tag_text.
  pose proof (string_of_list_ascii_of_string name) as Ename.
  destruct (list_ascii_of_string name) as [|c0 l]; [done|].
  apply andb_prop in Hname as [Hc0 Hl].
  assert (Hview : tag_view p = (8, EmptyString, ∅, EmptyString, EmptyString,
                               (false, false, false, false), trace p)).
  { unfold tag_view. by rewrite Hst, Hf, Hsty, Hcl, Hnb, Htg, Hm, Hk, Hv. }
  assert (Htxt :
    (("<"%char :: tag_prefix kind) ++ (c0 :: l)
       ++ concat (map attribute_text attrs)
       ++ tag_suffix kind ++ [">"%char]) ++ rest
    = ("<"%char :: tag_prefix kind)
        ++ c0 :: (l ++ (concat (map attribute_text attrs)
                          ++ ((tag_suffix kind ++ [">"%char]) ++ rest)))).
  { rewrite <- !(assoc_L (++)). reflexivity. }
  rewrite Htxt. clear Htxt.
  destruct (scan_tag_open
              (l ++ (concat (map attribute_text attrs)
                       ++ ((tag_suffix kind ++ [">"%char]) ++ rest)))
              kind c0 p (trace p) Hc0 Hview) as (p1 & -> & Hv1).
  destruct (scan_name_chars
              (concat (map attribute_text attrs)
                 ++ ((tag_suffix kind ++ [">"%char]) ++ rest))
              l p1 _ _ _ _ Hl Hv1) as (p2 & -> & Hv2).
  destruct (scan_attributes
              ((tag_suffix kind ++ [">"%char]) ++ rest)
              attrs p2 3 _ ∅ _ _ Hattrs (or_introl eq_refl) Hv2)
    as (p3 & s3 & -> & Hs3 & Hv3).
  destruct (scan_tag_close rest kind p3 s3 _ _ _ Hs3 Hv3)
    as (p' & -> & Htr).
  exists p', (foldl (fun m a => map_insert a.1 a.2 m) ∅ attrs).
  split; [done|]. split.
  - rewrite Htr. change (String c0 EmptyString +:+ string_of_list_ascii l)
      with (string_of_list_ascii (c0 :: l)). by rewrite Ename.
  - intros k. rewrite foldl_map_insert_lookup. by rewrite lookup_empty.
Qed.

(** * Further properties *)

(** ** The states of an execution *)

(** The table enters the states between tags from such states only. *)
Lemma between_tags_source s y s' :
  m_states (s * MAXTOKEN + symbol_value y) = Some s' ->
  enters_between_tags s' = true ->
  between_tags s = true /\ (s' <> 10 -> s' <> 16 -> s <> 10).
Proof.
  intros H. table_enum H; injection H as <-; vm_compute; intros He;
    try discriminate He; (split; [reflexivity | intros; congruence]).
Qed.

(** Closing tags begin out of state 2 only. *)
Lemma into_9 s y :
  m_states (s * MAXTOKEN + symbol_value y) = Some 9 -> s = 2.
Proof. intros H. table_enum H; reflexivity. Qed.

(** The state after a run of the loop body that returns. *)
Lemma body_ok_state p p' :
  parse_body sink p = Ok p' ->
  0 <= m_state p' <= 23 /\ m_state p' <> 6 /\ m_state p' <> 16.
Proof.
  intros H. body_inv H s' Ht;
    unfold_rules; repeat first [progress cbn in H | case_match];
    simplify_eq; cbn; lia.
Qed.

(** X6.  A run of the loop body that returns leaves the parser in one of
    the states 0 to 23 other than the fictive states 6 and 16: the fictive
    states 6, 16, 24 and 25 are left by their own actions, so their rows of
    the table are not consulted by the next character. *)
Theorem body_leaves_no_fictive_state p p' :
  parse_body sink p = Ok p' ->
  0 <= m_state p' <= 23 /\ m_state p' <> 6 /\ m_state p' <> 16.
Proof. apply body_ok_state. Qed.

(** A run of the loop body that throws leaves the state at the error value
    or at the state whose action threw. *)
Lemma body_throw_state p e p' :
  parse_body sink p = Throw e p' ->
  (e = KISAX_ERROR_PARSING /\ m_state p' = -1) \/
  (e = KISAX_ERROR_CLOSE_STYLE_TAG /\
   (m_state p' = 4 \/ m_state p' = 7 \/ m_state p' = 9)) \/
  (e = KISAX_ERROR_CLOSING_TAG_WITH_NO_BODY /\ m_state p' = 7) \/
  (e = KISAX_ERROR_CLOSING_TAG_WITH_ATTRIBUTES /\ m_state p' = 6).
Proof.
  intros H. body_inv H s' Ht;
    unfold_rules; repeat first [progress cbn in H | case_match];
    simplify_eq; cbn; auto 10.
Qed.

Lemma body_keeps_state_in_range p r p' :
  parse_body sink p = r -> parser_of r = Some p' -> state_in_range p'.
Proof.
  intros H Hp. unfold state_in_range.
  destruct r as [p1|e p1|]; simplify_eq/=.
  - apply body_ok_state in H. lia.
  - apply body_throw_state in H. intuition lia.
Qed.

Lemma body_keeps_between_tags_invariant p r p' :
  parse_body sink p = r -> parser_of r = Some p' ->
  between_tags_invariant p -> between_tags_invariant p'.
Proof.
  intros H Hp Hinv. unfold between_tags_invariant, tag_fields_clear in *.
  destruct r as [p1|e p1|]; simplify_eq/=; body_inv H s' Ht;
    unfold_rules; repeat first [progress cbn in H | case_match];
    simplify_eq; cbn; intros Hb; try discriminate Hb;
    try (split; [by repeat split | done]);
    apply between_tags_source in Ht as [Hsrc Hne]; try reflexivity;
    destruct (Hinv Hsrc) as [Hclear Htext];
    (split; [exact Hclear|]); intros Hx;
    first [by destruct Hx | reflexivity | apply Htext, Hne; lia].
Qed.

(** The state stays in range and the fields of a tag are clear between
    tags, on every parser that occurs in an execution. *)
Lemma reachable_states p :
  reachable sink p -> state_in_range p /\ between_tags_invariant p.
Proof.
  induction 1 as [junk src|s p _ [IHr IHb]|b p _ [IHr IHb]|p _ [IHr IHb]
                 |p _ [IHr IHb]|p _ [IHr IHb]|c p _ [IHr IHb]
                 |p p' _ [IHr IHb] Hb|p e p' _ [IHr IHb] Hb].
  - split; [unfold state_in_range; cbn; lia | intros H; discriminate H].
  - split; [exact IHr | exact IHb].
  - split; [exact IHr | exact IHb].
  - split; [unfold state_in_range; cbn; lia | intros H; discriminate H].
  - split; unfold state_in_range, between_tags_invariant, tag_fields_clear,
      call, stop in *; by destruct (sink _ _).
  - split; unfold state_in_range, between_tags_invariant, tag_fields_clear,
      call, stop in *; by destruct (sink _ _).
  - split; [exact IHr | exact IHb].
  - split; [eapply body_keeps_state_in_range
           | eapply body_keeps_between_tags_invariant]; eauto.
  - split; [eapply body_keeps_state_in_range
           | eapply body_keeps_between_tags_invariant]; eauto.
Qed.


(** X7.  On a parser that occurs in an execution the loop body reads the
    tables inside their bounds, except when the state is the error value
    that a [KISAX_ERROR_PARSING] leaves behind: then, and only then, the
    index into [_states] is negative.  So [parse] must not be called again
    after that error before [reset]. *)
Theorem table_read_out_of_bounds p :
  reachable sink p ->
  (parse_body sink p = Undefined <-> m_state p = -1).
Proof.
  intros Hr. split.
  - intros H. destruct (decide (m_state p = -1)) as [|Hne]; [done|].
    exfalso. destruct (reachable_states p Hr) as [Hrange _].
    unfold state_in_range in Hrange.
    pose proof (symbol_value_range (getSymbolType (m_current_char p))) as Hy.
    unfold parse_body in H.
    destruct (m_states _) as [s'|] eqn:Ht.
    + pose proof (proj2 (m_states_Some _ _ Ht)) as Hs.
      assert (s' = -1 \/ 0 <= s' <= 25) as [He | He] by lia;
        [|apply state_enum in He; split_or He]; subst s';
        cbv [m_rules _rules lookup list_lookup Z.ltb Z.compare Z.to_nat
             Pos.to_nat Pos.iter_op Nat.add] in H;
        unfold_rules; repeat first [progress cbn in H | case_match];
        discriminate H.
    + unfold m_states in Ht. destruct (Z.ltb_spec
        (m_state p * MAXTOKEN
         + symbol_value (getSymbolType (m_current_char p))) 0) as [Hlt|Hge];
        [unfold MAXTOKEN in Hlt; lia|].
      apply lookup_ge_None in Ht. rewrite _states_length in Ht.
      unfold MAXTOKEN in *. lia.
  - intros Hs. unfold parse_body. rewrite Hs. by rewrite from_error.
Qed.

(** X16.  Nothing leaks from one tag into the next: whenever a parser that
    occurs in an execution is idle between tags (state 8), the tag name, the
    attribute collection, the two attribute buffers and the text buffer are
    empty and the three tag flags are down; with the stop flag down it is
    [idle]. *)
Theorem idle_state_is_clear p :
  reachable sink p -> m_state p = 8 ->
  tag_fields_clear p /\ m_text p = EmptyString /\
  (m_stop_flag p = false -> idle p).
Proof.
  intros Hr Hs. destruct (reachable_states p Hr) as [_ Hb].
  destruct Hb as [Hclear Htext]; [by rewrite Hs|].
  split; [exact Hclear|]. split; [apply Htext; lia|].
  intros Hf. destruct Hclear as (? & ? & ? & ? & ? & ? & ?).
  by repeat split.
Qed.

(** X17.  The guard of [do_tag_is_closing] never fires: in an execution no
    run of the loop body throws out of state 9, because [/] opens a closing
    tag out of state 2 only, where the definition flag is down. *)
Theorem do_tag_is_closing_never_throws p e p' :
  reachable sink p -> parse_body sink p = Throw e p' -> m_state p' <> 9.
Proof.
  intros Hr H Hs. destruct (reachable_states p Hr) as [_ Hb].
  body_inv H s' Ht;
    unfold_rules; repeat first [progress cbn in H | case_match];
    simplify_eq; cbn in Hs; try discriminate Hs.
  apply into_9 in Ht.
  destruct Hb as [(_ & _ & _ & _ & Hsty & _) _]; [by rewrite Ht|].
  congruence.
Qed.


(** ** The loop and the stream *)

(** The actions never look at the stream nor touch it. *)
Lemma rules_ignore_stream :
  Forall (fun rule : RULE =>
            forall v p, rule (set_is v p) = map_result (set_is v) (rule p))
    (_rules sink).
Proof.
  unfold _rules.
  repeat (apply List.Forall_cons;
          [intros v p;
           destruct p as [st ch src tx tg ats af asd cm sty cl nb sf tr];
           destruct sty, cl, nb;
           unfold_rules; unfold map_result; run_rule;
           repeat match goal with
                  | |- context [sink ?evs ?e] => destruct (sink evs e); run_rule
                  | |- context [bool_decide ?P] =>
                      destruct (bool_decide P); run_rule
                  end;
           reflexivity|]).
  apply List.Forall_nil.
Qed.

Lemma body_ignores_stream v p :
  parse_body sink (set_is v p) = map_result (set_is v) (parse_body sink p).
Proof.
  unfold parse_body. cbn [m_state m_current_char set_is].
  destruct (m_states _) as [s'|]; [|done]. cbn zeta.
  destruct (s' <? 0); [done|].
  destruct (m_rules sink s') as [rule|] eqn:Hr; [|done].
  unfold m_rules in Hr. destruct (s' <? 0); [done|].
  change (set_state s' (set_is v p)) with (set_is v (set_state s' p)).
  exact (proj1 (Forall_lookup _ _) rules_ignore_stream _ _ Hr v _).
Qed.

(** The loop overwrites the stream before it reads it. *)
Lemma loop_ignores_stream v cs p :
  parse_loop sink cs (set_is v p) = parse_loop sink cs p.
Proof. by destruct cs. Qed.

Lemma loop_app cs2 : forall cs1 p p1,
  parse_loop sink cs1 p = Ok p1 -> m_stop_flag p1 = false ->
  parse_loop sink (cs1 ++ cs2) p = parse_loop sink cs2 p1.
Proof.
  induction cs1 as [|c r IH]; intros p p1 H Hf.
  - cbn in H. simplify_eq. cbn [app]. by rewrite loop_ignores_stream.
  - cbn in H. destruct (m_stop_flag p) eqn:Hp.
    { simplify_eq. cbn in Hf. congruence. }
    cbn [app parse_loop]. cbn [m_stop_flag set_current_char set_is].
    rewrite Hp.
    change (set_current_char c
              (set_is (Some (Istream (r ++ cs2) false false false)) p))
      with (set_is (Some (Istream (r ++ cs2) false false false))
              (set_current_char c
                 (set_is (Some (Istream r false false false)) p))).
    rewrite body_ignores_stream.
    destruct (parse_body sink _) as [q|e q|]; cbn in H; try discriminate H.
    cbn [map_result bind_result]. rewrite loop_ignores_stream.
    by apply IH.
Qed.

(** X3.  A document may be fed in pieces: when the loop has read [cs1] to
    its end without a stop, running it on [cs2] from the parser it left
    gives exactly what one run over [cs1 ++ cs2] gives. *)
Theorem parse_loop_app cs2 : forall cs1 p p1,
  parse_loop sink cs1 p = Ok p1 -> m_stop_flag p1 = false ->
  parse_loop sink (cs1 ++ cs2) p = parse_loop sink cs2 p1.
Proof. exact (loop_app cs2). Qed.

(** C6.  Two adjacent minus signs in the body of a comment, followed by a
    character other than [>], are a parsing error.  The parser [p1] is in
    the body of a comment (state 20 after the opening [<!--], state 21
    after a character of the body) with the stop flag down; the body goes
    on with [pre], which does not end the comment, then [--], then [c].
    The loop started on these characters throws [KISAX_ERROR_PARSING]; and
    so does every call of [parse()], from whatever parser, whose loop
    reads the part [before] of its stream, comes to [p1] and has these
    characters next -- a whole document read by one call on a new parser
    as well as a call that resumes after a stop. *)
Theorem comment_double_minus_raises pre c rest p1 :
  m_state p1 = 20 \/ m_state p1 = 21 -> m_stop_flag p1 = false ->
  has_terminator (pre ++ ["-"; "-"]%char) = false -> c <> ">"%char ->
  (exists p',
     parse_loop sink (pre ++ "-"%char :: "-"%char :: c :: rest) p1
       = Throw KISAX_ERROR_PARSING p') /\
  (forall p s before,
     m_is p = Some s -> good s = true ->
     pending s = before ++ pre ++ "-"%char :: "-"%char :: c :: rest ->
     parse_loop sink before (parse_begin sink p) = Ok p1 ->
     exists p', parse sink p = Throw KISAX_ERROR_PARSING p').
Proof.
  intros Hst Hf Ht Hc.
  destruct (comment_dashes_raise c rest pre p1) as (p' & Hp'); [done| |].
  { left. split; [done|]. by apply has_terminator_snoc. }
  split; [by exists p'|].
  intros p s before Hs Hg Hpend Hb. exists p'.
  unfold parse, parse_while. rewrite Hs, Hg, Hpend.
  change (set_stop_flag false
            (if m_stop_flag p then p else call sink documentStart p))
    with (parse_begin sink p).
  by rewrite (loop_app _ _ _ _ Hb Hf), Hp'.
Qed.

(** X4.  Once a handler has called [stop()], the loop extracts one more
    character before it tests the flag, and drops it: the character after
    the one whose action stopped the scan is gone from the stream and no
    action ever sees it. *)
Theorem stop_discards_next_character p c d rest p1 :
  m_stop_flag p = false ->
  parse_body sink
    (set_current_char c
       (set_is (Some (Istream (d :: rest) false false false)) p)) = Ok p1 ->
  m_stop_flag p1 = true ->
  parse_loop sink (c :: d :: rest) p
    = Ok (set_current_char d
            (set_is (Some (Istream rest false false false)) p1)) /\
  forall p2, parse_loop sink (c :: d :: rest) p = Ok p2 ->
    m_is p2 = Some (Istream rest false false false) /\
    trace p2 = trace p1 /\ scanner_context p2 = scanner_context p1.
Proof.
  intros Hf Hb Hs.
  assert (E : parse_loop sink (c :: d :: rest) p
              = Ok (set_current_char d
                      (set_is (Some (Istream rest false false false)) p1))).
  { rewrite parse_loop_cons by done. rewrite Hb. cbn. by rewrite Hs. }
  split; [exact E|]. intros p2 H2. rewrite E in H2. by simplify_eq.
Qed.

(** ** How [parse] ends *)

Lemma loop_never_bad_stream cs : forall p p',
  parse_loop sink cs p <> Throw KISAX_ERROR_BAD_STREAM p'.
Proof.
  induction cs as [|c r IH]; intros p p' H; cbn in H; [done|].
  destruct (m_stop_flag p); [done|].
  destruct (parse_body sink _) as [q|e q|] eqn:Hb; cbn in H.
  - by apply IH in H.
  - simplify_eq. apply body_throw_state in Hb. intuition discriminate.
  - done.
Qed.

(** The loop returns on a stop or at the end of the stream. *)
Lemma loop_ok_exit cs : forall p p',
  parse_loop sink cs p = Ok p' ->
  m_stop_flag p' = true \/ stream_eof p' = true.
Proof.
  induction cs as [|c r IH]; intros p p' H; cbn in H.
  - simplify_eq. by right.
  - destruct (m_stop_flag p) eqn:Hf; [simplify_eq; by left|].
    destruct (parse_body sink _) as [q|e q|]; cbn in H; try done.
    by apply IH in H.
Qed.

(** X5.  Where [KISAX_ERROR_BAD_STREAM] comes from.  [parse] throws it at
    once when no stream is bound.  On a bound stream it throws it exactly
    when the loop has ended by itself -- no action routine ever throws this
    error -- with the stop flag down and the stream's end-of-file bit down;
    the parser thrown is the one the loop left.  In particular a stream
    that is already failed at the call is never scanned: after
    [documentStart] (left out when the stop flag was up) the call throws
    the error when the end-of-file bit is down, and calls [documentEnd] and
    returns when it is up. *)
Theorem bad_stream_sources p :
  (m_is p = None -> parse sink p = Throw KISAX_ERROR_BAD_STREAM p) /\
  (forall s p',
     m_is p = Some s ->
     parse sink p = Throw KISAX_ERROR_BAD_STREAM p' <->
     parse_while sink s (parse_begin sink p) = Ok p' /\
     m_stop_flag p' = false /\ stream_eof p' = false) /\
  (forall s,
     m_is p = Some s -> good s = false ->
     parse sink p
       = (let q := set_is (Some (Istream (pending s) (eofbit s) true (badbit s)))
                     (parse_begin sink p) in
          if eof s then Ok (call sink documentEnd q)
          else Throw KISAX_ERROR_BAD_STREAM q)).
Proof.
  split; [|split].
  - intros H. unfold parse. by rewrite H.
  - intros s p' Hs. unfold parse. rewrite Hs.
    change (set_stop_flag false
              (if m_stop_flag p then p else call sink documentStart p))
      with (parse_begin sink p).
    destruct (parse_while sink s (parse_begin sink p)) as [q|e q|] eqn:Hw;
      cbn [bind_result].
    + unfold parse_end.
      destruct (m_stop_flag q) eqn:Hf; cbn [negb andb].
      { split; [done | intros (? & ? & _); simplify_eq; congruence]. }
      destruct (stream_eof q) eqn:He; cbn [negb].
      { split; [done | intros (? & _ & ?); simplify_eq; congruence]. }
      split; [intros ?; by simplify_eq | intros (? & _); by simplify_eq].
    + split; [|by intros (? & _)].
      intros ?. simplify_eq. exfalso. unfold parse_while in Hw.
      destruct (good s); [by apply loop_never_bad_stream in Hw | done].
    + split; [done | by intros (? & _)].
  - intros s Hs Hg. unfold parse. rewrite Hs.
    change (set_stop_flag false
              (if m_stop_flag p then p else call sink documentStart p))
      with (parse_begin sink p).
    unfold parse_while. rewrite Hg. cbn [bind_result]. unfold get.
    rewrite Hg. cbn [snd]. unfold parse_end, stream_eof.
    cbn [m_is set_is m_stop_flag eof eofbit].
    assert (Hf0 : m_stop_flag (parse_begin sink p) = false) by done.
    rewrite Hf0. cbn [negb andb]. unfold eof. by destruct (eofbit s).
Qed.

(** X8.  The events of one call of [parse] on a bound parser:
    [documentStart] unless the stop flag was up, then events of the loop,
    and, when the call returns, [documentEnd] -- also when the call returns
    because of a stop.  A call that throws ends without [documentEnd]. *)
Theorem parse_events p s r p' :
  m_is p = Some s -> parse sink p = r -> parser_of r = Some p' ->
  exists evs,
    Forall scan_event evs /\
    trace p' = trace p
               ++ (if m_stop_flag p then [] else [documentStart])
               ++ evs
               ++ (match r with Ok _ => [documentEnd] | _ => [] end).
Proof.
  intros Hs H Hp. unfold parse in H. rewrite Hs in H.
  set (p0 := set_stop_flag false _) in H.
  assert (H0 : trace p0 = trace p
                 ++ (if m_stop_flag p then [] else [documentStart])).
  { subst p0. unfold call, stop. destruct (m_stop_flag p); cbn.
    - by rewrite (right_id_L [] (++)).
    - by destruct (sink _ _). }
  assert (Hw : forall p1, parser_of (parse_while sink s p0) = Some p1 ->
               exists evs, trace p1 = trace p0 ++ evs /\ Forall scan_event evs).
  { intros p1 Hp1. unfold parse_while in Hp1. destruct (good s).
    - exact (loop_trace _ _ _ _ eq_refl Hp1).
    - simplify_eq/=. exists []. by rewrite (right_id_L [] (++)). }
  destruct (parse_while sink s p0) as [p1|e p1|]; cbn in H.
  - destruct (Hw _ eq_refl) as (evs & E & F). unfold parse_end in H.
    destruct (_ && _); subst r; simplify_eq/=; exists evs; (split; [done|]).
    + by rewrite E, H0, (right_id_L [] (++)), <- (assoc_L (++)).
    + unfold call, stop.
      destruct (sink _ _); cbn; by rewrite E, H0, <- !(assoc_L (++)).
  - subst r. simplify_eq/=. destruct (Hw _ eq_refl) as (evs & E & F).
    exists evs. split; [done|].
    by rewrite E, H0, (right_id_L [] (++)), <- (assoc_L (++)).
  - subst r. discriminate Hp.
Qed.


(** ** The beginning of a document *)

(** Run every rule on an exposed parser. *)
Ltac run_all :=
  unfold do_tag_end, do_text_end, do_commentary_end, call, stop,
    do_all_clear;
  cbv [bind_result do_nothing do_tag_pushback do_attribute_first_pushback
       do_attribute_second_pushback do_attribute_store do_style_on
       do_is_style_on do_tag_wobody_close do_tag_is_closing do_text_pushback
       do_commentary_pushback do_comment_minus_mark
       set_state set_current_char set_is set_text set_tag set_attributes
       set_attribute_first set_attribute_second set_comment set_is_style
       set_is_closing_tag set_is_tag_no_body set_stop_flag set_trace
       m_state m_current_char m_is m_text m_tag m_attributes
       m_attribute_first m_attribute_second m_comment m_is_style
       m_is_closing_tag m_is_tag_no_body m_stop_flag trace negb
       opening_flags fst snd].

Lemma loop_error c tl p y :
  m_stop_flag p = false -> getSymbolType c = y ->
  m_states (m_state p * MAXTOKEN + symbol_value y) = Some (-1) ->
  exists p', parse_loop sink (c :: tl) p = Throw KISAX_ERROR_PARSING p' /\
             trace p' = trace p.
Proof.
  intros Hf Hy Ht. rewrite parse_loop_cons by done.
  rewrite (parse_body_error _ y) by done. by eexists.
Qed.

Lemma rejected_start_raises : forall cs p,
  m_state p = 0 -> m_stop_flag p = false -> rejected_start cs = true ->
  exists p', parse_loop sink cs p = Throw KISAX_ERROR_PARSING p' /\
             trace p' = trace p.
Proof.
  induction cs as [|c t IH]; intros p Hs Hf Hr; [done|].
  unfold rejected_start in Hr. cbn [skip_blanks] in Hr. unfold is_blank in *.
  destruct (getSymbolType c) eqn:Hc;
    try (apply (loop_error c t p _ Hf Hc); by rewrite Hs).
  - (* the first [<] *)
    rewrite Hc in Hr.
    destruct t as [|d t']; [done|].
    rewrite (loop_rule c _ _ TAG_BEGIN 1 do_nothing); try done;
      [|by rewrite Hs].
    cbn [bind_result do_nothing].
    destruct (getSymbolType d) eqn:Hd; try done;
      match goal with
      | |- context [parse_loop sink (d :: t') ?P] =>
          destruct (loop_error d t' P _ Hf Hd) as (p' & E & T);
            [reflexivity | exists p'; split; [exact E | exact T]]
      end.
  - (* white space *)
    rewrite (loop_rule c _ _ DELIMITER 0 do_nothing); try done;
      [|by rewrite Hs].
    cbn [bind_result do_nothing].
    match goal with
    | |- context [parse_loop sink t ?P] =>
        destruct (IH P eq_refl Hf Hr) as (p' & E & T);
          exists p'; split; [exact E | exact T]
    end.
Qed.

(** X9.  A document must begin with a definition tag: a freshly constructed
    parser bound to a stream that, after its leading white space, goes on
    with anything other than [<?] calls [documentStart] and fails with
    [KISAX_ERROR_PARSING]. *)
Theorem document_must_begin_with_definition junk cs :
  rejected_start cs = true ->
  exists p',
    parse sink (Parser_new junk (Some (Istream cs false false false)))
      = Throw KISAX_ERROR_PARSING p' /\
    trace p' = [documentStart].
Proof.
  intros Hr. unfold parse, parse_while. cbn [m_is Parser_new init reset
    do_all_clear set_attribute_second set_attribute_first set_attributes
    set_tag set_text set_is_tag_no_body set_is_style set_is_closing_tag
    set_stop_flag set_state m_stop_flag good eofbit failbit badbit negb andb
    pending].
  set (p0 := set_stop_flag false _).
  destruct (rejected_start_raises cs p0) as (p' & E & T); try done.
  { subst p0. unfold call, stop. by destruct (sink _ _). }
  rewrite E. cbn [bind_result]. exists p'. split; [done|].
  rewrite T. subst p0. unfold call, stop. by destruct (sink _ _).
Qed.

(** ** Text *)

Lemma scan_blanks tl : forall l p tx tr,
  forallb is_blank l = true ->
  text_view p = (8, tx, false, tr) ->
  exists p1,
    parse_loop sink (l ++ tl) p = parse_loop sink tl p1 /\
    text_view p1 = (8, tx, false, tr) /\
    scanner_context p1 = scanner_context p.
Proof.
  induction l as [|c l IH]; intros p tx tr Hl Hv; [by exists p|].
  cbn in Hl. apply andb_prop in Hl as [Hc Hl]. cbn [app].
  unfold is_blank in Hc. destruct (getSymbolType c) eqn:Hy; try done.
  destruct p; unfold text_view in Hv; cbn in Hv; simplify_eq.
  rewrite (loop_rule c _ _ DELIMITER 8 do_nothing); try done. run_all.
  match goal with
  | |- context [parse_loop sink (l ++ tl) ?P] =>
      destruct (IH P _ _ Hl eq_refl) as (p1 & -> & Hv1 & Hc1)
  end.
  by exists p1.
Qed.

Lemma scan_text_chars tl : forall l p s tx tr,
  forallb no_tag_begin l = true -> s = 8 \/ s = 10 ->
  (s = 8 -> match l with c :: _ => is_blank c = false | [] => True end) ->
  text_view p = (s, tx, false, tr) ->
  exists p1,
    parse_loop sink (l ++ tl) p = parse_loop sink tl p1 /\
    text_view p1 = (if l is [] then s else 10,
                    tx +:+ string_of_list_ascii l, false, tr).
Proof.
  induction l as [|c l IH]; intros p s tx tr Hl Hs H8 Hv.
  - exists p. cbn. by rewrite append_empty_r.
  - cbn in Hl. apply andb_prop in Hl as [Hc Hl]. cbn [app].
    unfold no_tag_begin in Hc.
    destruct p; unfold text_view in Hv; cbn in Hv; simplify_eq.
    rewrite (loop_rule c _ _ (getSymbolType c) 10 do_text_pushback);
      try done.
    2:{ destruct Hs as [-> | ->].
        - specialize (H8 eq_refl). unfold is_blank in H8.
          by destruct (getSymbolType c).
        - by destruct (getSymbolType c). }
    run_all.
    assert (H10 : 10 = 8 -> match l with
                            | c :: _ => is_blank c = false
                            | [] => True
                            end) by (intros H; discriminate H).
    match goal with
    | |- context [parse_loop sink (l ++ tl) ?P] =>
        destruct (IH P 10 _ _ Hl (or_intror eq_refl) H10 eq_refl)
          as (p1 & -> & Hv1)
    end.
    exists p1. split; [done|]. rewrite Hv1. run_all.
    rewrite push_back_append. by destruct l.
Qed.

(** X10.  Text between tags: the white space before it is skipped, the
    text from its first other character up to the next [<] is kept as it
    is, and [textHandle] gets it when that [<] is read.  Text that the end
    of the stream cuts off stays in the buffer, unreported. *)
Theorem text_is_delivered blanks c0 t rest p :
  forallb is_blank blanks = true -> is_blank c0 = false ->
  forallb no_tag_begin (c0 :: t) = true ->
  m_state p = 8 -> m_stop_flag p = false -> m_text p = EmptyString ->
  (exists p',
     parse_loop sink (blanks ++ (c0 :: t) ++ "<"%char :: rest) p
       = parse_loop sink rest p' /\
     trace p' = trace p ++ [textHandle (string_of_list_ascii (c0 :: t))] /\
     m_state p' = 2 /\ m_text p' = EmptyString) /\
  (exists p',
     parse_loop sink (blanks ++ c0 :: t) p = Ok p' /\
     trace p' = trace p /\
     m_text p' = string_of_list_ascii (c0 :: t)).
Proof.
  intros Hb Hc0 Ht Hs Hf Htx.
  assert (Hv : text_view p = (8, EmptyString, false, trace p)).
  { unfold text_view. by rewrite Hs, Hf, Htx. }
  split.
  - destruct (scan_blanks ((c0 :: t) ++ "<"%char :: rest) blanks p _ _ Hb Hv)
      as (p1 & -> & Hv1 & _).
    destruct (scan_text_chars ("<"%char :: rest) (c0 :: t) p1 8 _ _ Ht
                (or_introl eq_refl) (fun _ => Hc0) Hv1) as (p2 & -> & Hv2).
    destruct p2; unfold text_view in Hv2; cbn in Hv2; simplify_eq.
    rewrite (loop_rule "<" _ _ TAG_BEGIN 16 (do_text_end sink)); try done.
    run_all. destruct (sink _ _); run_all; by eexists.
  - destruct (scan_blanks (c0 :: t) blanks p _ _ Hb Hv)
      as (p1 & -> & Hv1 & _).
    destruct (scan_text_chars [] (c0 :: t) p1 8 _ _ Ht
                (or_introl eq_refl) (fun _ => Hc0) Hv1) as (p2 & E & Hv2).
    rewrite (right_id_L [] (++)) in E. rewrite E. cbn [parse_loop].
    eexists. split; [done|].
    destruct p2; unfold text_view in Hv2; cbn in Hv2; by simplify_eq.
Qed.


(** ** The grammar of tags *)

Lemma scan_name_chars_flags tl : forall l p tg m flags tr,
  forallb name_char l = true ->
  tag_view p = (3, tg, m, EmptyString, EmptyString, (flags, false), tr) ->
  exists p1,
    parse_loop sink (l ++ tl) p = parse_loop sink tl p1 /\
    tag_view p1 = (3, tg +:+ string_of_list_ascii l, m, EmptyString,
                   EmptyString, (flags, false), tr).
Proof.
  induction l as [|c l IH]; intros p tg m flags tr Hl Hv.
  - exists p. cbn. by rewrite append_empty_r.
  - cbn in Hl. apply andb_prop in Hl as [Hc Hl]. cbn [app].
    view_eq p Hv.
    rewrite (loop_rule c _ _ (getSymbolType c) 3 do_tag_pushback);
      try done.
    2:{ unfold name_char in Hc. by destruct (getSymbolType c). }
    run_all.
    match goal with
    | |- context [parse_loop sink (l ++ tl) ?P] =>
        destruct (IH P _ _ _ _ Hl eq_refl) as (p1 & -> & Hv1)
    end.
    exists p1. split; [done|]. rewrite Hv1. run_all.
    by rewrite push_back_append.
Qed.

(** A tag up to what ends it: the name is in [m_tag], the attributes are in
    the collection, and the flags are those of the opening. *)
Lemma scan_tag_head tl o name attrs p tr :
  valid_name name = true -> forallb valid_attribute attrs = true ->
  tag_view p = (8, EmptyString, ∅, EmptyString, EmptyString,
                (false, false, false, false), tr) ->
  exists p1 s,
    parse_loop sink (tag_head o name attrs ++ tl) p = parse_loop sink tl p1 /\
    (s = 3 \/ s = 15) /\
    tag_view p1 = (s, name, attributes_of attrs, EmptyString, EmptyString,
                   ((opening_flags o).1, (opening_flags o).2, false, false),
                   tr).
Proof.
  intros Hname Hattrs Hv. unfold valid_name in Hname. unfold tag_head.
  pose proof (string_of_list_ascii_of_string name) as Ename.
  destruct (list_ascii_of_string name) as [|c0 l]; [done|].
  apply andb_prop in Hname as [Hc0 Hl]. unfold name_start in Hc0.
  rewrite <- !(assoc_L (++)).
  assert (Hopen : exists p1,
    parse_loop sink
      (("<"%char :: opening_text o)
       ++ (c0 :: l) ++ concat (map attribute_text attrs) ++ tl) p
    = parse_loop sink (l ++ concat (map attribute_text attrs) ++ tl) p1 /\
    tag_view p1 = (3, String c0 EmptyString, ∅, EmptyString, EmptyString,
                   ((opening_flags o).1, (opening_flags o).2, false, false),
                   tr)).
  { view_eq p Hv. destruct o; cbn [app opening_text];
      (rewrite (loop_rule "<" _ _ TAG_BEGIN 2 do_nothing); [|done..]);
      run_all.
    - rewrite (loop_rule c0 _ _ (getSymbolType c0) 3 do_tag_pushback);
        [|done|done|by destruct (getSymbolType c0)|done|done].
      run_all. by eexists.
    - rewrite (loop_rule "?" _ _ QUESTION 17 do_style_on); [|done..].
      run_all.
      rewrite (loop_rule c0 _ _ (getSymbolType c0) 3 do_tag_pushback);
        [|done|done|by destruct (getSymbolType c0)|done|done].
      run_all. by eexists.
    - rewrite (loop_rule "/" _ _ SLASH 9 do_tag_is_closing); [|done..].
      run_all.
      rewrite (loop_rule c0 _ _ (getSymbolType c0) 3 do_tag_pushback);
        [|done|done|by destruct (getSymbolType c0)|done|done].
      run_all. by eexists. }
  destruct Hopen as (p1 & -> & Hv1).
  destruct (scan_name_chars_flags (concat (map attribute_text attrs) ++ tl)
              l p1 _ _ _ _ Hl Hv1) as (p2 & -> & Hv2).
  destruct (scan_attributes tl attrs p2 3 _ ∅ _ _ Hattrs
              (or_introl eq_refl) Hv2) as (p3 & s3 & -> & Hs3 & Hv3).
  exists p3, s3. split; [done|]. split; [done|]. rewrite Hv3.
  change (String c0 EmptyString +:+ string_of_list_ascii l)
    with (string_of_list_ascii (c0 :: l)). by rewrite Ename.
Qed.

Lemma idle_view p :
  idle p ->
  tag_view p = (8, EmptyString, ∅, EmptyString, EmptyString,
                (false, false, false, false), trace p).
Proof.
  intros (Hst & Hf & Hsty & Hcl & Hnb & Htg & Hm & Hk & Hv).
  unfold tag_view. by rewrite Hst, Hf, Hsty, Hcl, Hnb, Htg, Hm, Hk, Hv.
Qed.

Lemma attributes_of_nonempty a attrs : attributes_of (a :: attrs) <> ∅.
Proof.
  intros H. assert (E : attributes_of (a :: attrs) !! a.1 = Some a.2).
  { unfold attributes_of. rewrite foldl_map_insert_lookup, lookup_empty.
    cbn [first_value]. by rewrite String.eqb_refl. }
  rewrite H in E. by rewrite lookup_empty in E.
Qed.

(** X11.  A closing tag [</name>] read by an idle parser is reported by
    [elementEnd(name)], whatever was opened before: nothing is compared
    with the tags read so far.  A closing tag that carries attributes
    fails with [KISAX_ERROR_CLOSING_TAG_WITH_ATTRIBUTES] at its [>], and no
    event is emitted for it. *)
Theorem closing_tag_events name attrs rest p :
  valid_name name = true -> forallb valid_attribute attrs = true ->
  idle p ->
  match attrs with
  | [] =>
      exists p',
        parse_loop sink (tag_head OpenClosing name [] ++ ">"%char :: rest) p
          = parse_loop sink rest p' /\
        trace p' = trace p ++ [elementEnd name] /\ m_state p' = 8
  | _ :: _ =>
      exists p',
        parse_loop sink (tag_head OpenClosing name attrs ++ ">"%char :: rest) p
          = Throw KISAX_ERROR_CLOSING_TAG_WITH_ATTRIBUTES p' /\
        trace p' = trace p
  end.
Proof.
  intros Hname Hattrs Hidle. apply idle_view in Hidle.
  destruct (scan_tag_head (">"%char :: rest) OpenClosing name attrs p _
              Hname Hattrs Hidle) as (p1 & s & E & Hs & Hv).
  destruct attrs as [|a attrs]; rewrite E; clear E; view_eq p1 Hv.
  - rewrite (loop_rule ">" _ _ TAG_END 6 (do_tag_end sink)); try done;
      [|by destruct Hs as [-> | ->]].
    run_all. destruct (sink _ _); run_all; by eexists.
  - rewrite (loop_rule ">" _ _ TAG_END 6 (do_tag_end sink)); try done;
      [|by destruct Hs as [-> | ->]].
    run_all.
    rewrite bool_decide_eq_false_2 by apply attributes_of_nonempty.
    run_all. by eexists.
Qed.

(** X12.  The markers of a tag exclude one another: [/] at the end of a
    definition tag and [?] at the end of a tag that did not open with [<?]
    fail with [KISAX_ERROR_CLOSE_STYLE_TAG], and [/] at the end of a closing
    tag fails with [KISAX_ERROR_CLOSING_TAG_WITH_NO_BODY]; the error is
    raised at the marker, before any event of the tag. *)
Theorem tag_marker_errors o name attrs e err rest p :
  valid_name name = true -> forallb valid_attribute attrs = true ->
  idle p -> marker_error o e = Some err ->
  exists p',
    parse_loop sink (tag_head o name attrs ++ e :: rest) p = Throw err p' /\
    trace p' = trace p.
Proof.
  intros Hname Hattrs Hidle He. apply idle_view in Hidle.
  destruct (scan_tag_head (e :: rest) o name attrs p _
              Hname Hattrs Hidle) as (p1 & s & -> & Hs & Hv).
  unfold marker_error in He. view_eq p1 Hv.
  destruct (getSymbolType e) eqn:Hy; try discriminate He.
  - (* [?] *)
    rewrite (loop_rule e _ _ QUESTION 4 do_is_style_on); try done;
      [|by destruct Hs as [-> | ->]].
    destruct o; simplify_eq; run_all; by eexists.
  - (* [/] *)
    rewrite (loop_rule e _ _ SLASH 7 do_tag_wobody_close); try done;
      [|by destruct Hs as [-> | ->]].
    destruct o; simplify_eq; run_all; by eexists.
Qed.

(** X13.  The [?] that closes a definition tag is optional: [<?name ...>]
    is reported by [definitionHandle] like [<?name ...?>]. *)
Theorem definition_tag_without_closing_mark name attrs rest p :
  valid_name name = true -> forallb valid_attribute attrs = true ->
  idle p ->
  exists p',
    parse_loop sink (tag_head OpenDefinition name attrs ++ ">"%char :: rest) p
      = parse_loop sink rest p' /\
    trace p' = trace p ++ [definitionHandle name (attributes_of attrs)] /\
    m_state p' = 8.
Proof.
  intros Hname Hattrs Hidle. apply idle_view in Hidle.
  destruct (scan_tag_head (">"%char :: rest) OpenDefinition name attrs p _
              Hname Hattrs Hidle) as (p1 & s & -> & Hs & Hv).
  view_eq p1 Hv.
  rewrite (loop_rule ">" _ _ TAG_END 6 (do_tag_end sink)); try done;
    [|by destruct Hs as [-> | ->]].
  run_all. destruct (sink _ _); run_all; by eexists.
Qed.

(** X14.  White space inside a tag is not skipped: after the name or an
    attribute one blank is read, and a second blank fails with
    [KISAX_ERROR_PARSING]. *)
Theorem two_blanks_in_tag_raise o name attrs b1 b2 rest p :
  valid_name name = true -> forallb valid_attribute attrs = true ->
  idle p -> is_blank b1 = true -> is_blank b2 = true ->
  exists p',
    parse_loop sink (tag_head o name attrs ++ b1 :: b2 :: rest) p
      = Throw KISAX_ERROR_PARSING p' /\
    trace p' = trace p.
Proof.
  intros Hname Hattrs Hidle H1 H2. apply idle_view in Hidle.
  destruct (scan_tag_head (b1 :: b2 :: rest) o name attrs p _
              Hname Hattrs Hidle) as (p1 & s & -> & Hs & Hv).
  unfold is_blank in *. view_eq p1 Hv.
  destruct (getSymbolType b1) eqn:Hy1; try discriminate H1.
  destruct (getSymbolType b2) eqn:Hy2; try discriminate H2.
  rewrite (loop_rule b1 _ _ DELIMITER 5 do_nothing); try done;
    [|by destruct Hs as [-> | ->]].
  run_all.
  match goal with
  | |- context [parse_loop sink (b2 :: rest) ?P] =>
      destruct (loop_error b2 rest P _ eq_refl Hy2) as (p' & E & T);
        [reflexivity | exists p'; split; [exact E | exact T]]
  end.
Qed.


(** ** Comments, as they are delivered *)

Lemma comment_end tl p :
  m_state p = 23 -> m_stop_flag p = false ->
  exists p',
    parse_loop sink (">"%char :: tl) p = parse_loop sink tl p' /\
    trace p' = trace p ++ [commentHandle (m_comment p)] /\
    m_state p' = 8 /\ m_comment p' = EmptyString.
Proof.
  intros Hs Hf.
  rewrite (loop_rule ">" _ _ TAG_END 25 (do_commentary_end sink)); try done;
    [|by rewrite Hs].
  unfold do_commentary_end, call, stop. cbn [bind_result].
  destruct (sink _ _); by eexists.
Qed.

Lemma lone_minuses_minus d t :
  lone_minuses ("-"%char :: d :: t)
    = negb (Ascii.eqb d "-") && lone_minuses (d :: t).
Proof. reflexivity. Qed.

Lemma lone_minuses_other c t :
  Ascii.eqb c "-" = false -> lone_minuses (c :: t) = lone_minuses t.
Proof. intros H. cbn [lone_minuses]. by rewrite H. Qed.

Lemma drop_after_minus_other c t :
  Ascii.eqb c "-" = false ->
  drop_after_minus (c :: t) = c :: drop_after_minus t.
Proof. intros H. cbn [drop_after_minus]. by rewrite H. Qed.

Lemma comment_body_scan tl : forall l,
  (forall p,
     m_state p = 20 \/ m_state p = 21 -> m_stop_flag p = false ->
     lone_minuses l = true ->
     exists p',
       parse_loop sink (l ++ "-"%char :: "-"%char :: ">"%char :: tl) p
         = parse_loop sink tl p' /\
       trace p' = trace p
                  ++ [commentHandle
                        (m_comment p
                         +:+ string_of_list_ascii (drop_after_minus l))] /\
       m_state p' = 8 /\ m_comment p' = EmptyString) /\
  (forall p,
     m_state p = 22 -> m_stop_flag p = false ->
     lone_minuses ("-"%char :: l) = true ->
     exists p',
       parse_loop sink (l ++ "-"%char :: "-"%char :: ">"%char :: tl) p
         = parse_loop sink tl p' /\
       trace p' = trace p
                  ++ [commentHandle
                        (m_comment p
                         +:+ string_of_list_ascii
                               (drop_after_minus ("-"%char :: l)))] /\
       m_state p' = 8 /\ m_comment p' = EmptyString).
Proof.
  induction l as [|c t [IHa IHb]]; (split; [intros p Hs Hf Hl|intros p Hs Hf Hl]).
  - (* the terminator *)
    cbn [app]. rewrite parse_loop_cons by done.
    rewrite comment_minus by done. cbn [bind_result].
    rewrite parse_loop_cons by done.
    rewrite comment_second_minus by done. cbn [bind_result].
    match goal with
    | |- context [parse_loop sink (">"%char :: tl) ?P] =>
        destruct (comment_end tl P eq_refl Hf) as (p' & -> & T & S & C)
    end.
    exists p'. split; [done|]. split; [|done]. rewrite T.
      cbn [m_comment trace set_comment set_state set_current_char set_is].
    by rewrite append_empty_r.
  - discriminate Hl.
  - cbn [app]. rewrite parse_loop_cons by done.
    destruct (Ascii.eqb_spec c "-") as [-> | Hc].
    + rewrite comment_minus by done. cbn [bind_result].
      match goal with
      | |- context [parse_loop sink (t ++ _) ?P] =>
          destruct (IHb P eq_refl Hf Hl) as (p' & -> & T & S & C)
      end.
      by exists p'.
    + rewrite comment_char by done. cbn [bind_result].
      apply Ascii.eqb_neq in Hc.
      assert (Hl' : lone_minuses t = true)
        by (by rewrite lone_minuses_other in Hl).
      match goal with
      | |- context [parse_loop sink (t ++ _) ?P] =>
          destruct (IHa P (or_intror eq_refl) Hf Hl') as (p' & -> & T & S & C)
      end.
      exists p'. split; [done|]. split; [|done]. rewrite T.
      cbn [m_comment trace set_comment set_state set_current_char set_is].
      rewrite push_back_append. by rewrite drop_after_minus_other.
  - rewrite lone_minuses_minus in Hl. apply andb_prop in Hl as [Hc Hl].
    apply negb_true_iff in Hc.
    assert (Hl' : lone_minuses t = true)
      by (by rewrite lone_minuses_other in Hl).
    apply Ascii.eqb_neq in Hc.
    cbn [app]. rewrite parse_loop_cons by done.
    rewrite comment_lone_minus by done. cbn [bind_result].
    match goal with
    | |- context [parse_loop sink (t ++ _) ?P] =>
        destruct (IHa P (or_intror eq_refl) Hf Hl') as (p' & -> & T & S & C)
    end.
    exists p'. split; [done|]. split; [|done]. rewrite T.
      cbn [m_comment trace set_comment set_state set_current_char set_is].
    by rewrite push_back_append.
Qed.

Lemma drop_after_minus_plain l :
  forallb (fun c => negb (Ascii.eqb c "-")) l = true ->
  drop_after_minus l = l.
Proof.
  induction l as [|c t IH]; [done|]. cbn. intros [Hc Ht]%andb_prop.
  apply negb_true_iff in Hc. rewrite Hc. by rewrite IH.
Qed.

(** X15.  What [commentHandle] gets for a comment read by an idle parser
    whose body holds no two adjacent minus signs and does not end with one:
    whatever the comment buffer held, then the body without the character
    that follows each minus sign.  A body without any minus sign is
    delivered as it is. *)
Theorem comment_is_delivered body rest p :
  m_state p = 8 -> m_stop_flag p = false -> lone_minuses body = true ->
  (exists p',
     parse_loop sink
       (["<"; "!"; "-"; "-"]%char
        ++ body ++ "-"%char :: "-"%char :: ">"%char :: rest) p
       = parse_loop sink rest p' /\
     trace p' = trace p
                ++ [commentHandle
                      (m_comment p
                       +:+ string_of_list_ascii (drop_after_minus body))] /\
     m_state p' = 8 /\ m_comment p' = EmptyString) /\
  (forallb (fun c => negb (Ascii.eqb c "-")) body = true ->
   drop_after_minus body = body).
Proof.
  intros Hs Hf Hl. split; [|apply drop_after_minus_plain].
  destruct (comment_opener
              (body ++ "-"%char :: "-"%char :: ">"%char :: rest) p Hf Hs)
    as (p1 & -> & H20 & Hf1 & T1 & C1).
  destruct (proj1 (comment_body_scan rest body) p1 (or_introl H20) Hf1 Hl)
    as (p' & -> & T & S & C).
  exists p'. split; [done|]. split; [|done]. by rewrite T, T1, C1.
Qed.


(** X18.  A [stop()] called by the handler of [documentStart] is lost:
    [parse] lowers the stop flag after that handler has run, so the scan
    that follows does not depend on what the handler answered. *)
Theorem stop_in_documentStart_is_lost p s :
  m_is p = Some s -> m_stop_flag p = false ->
  parse sink p
    = parse_while sink s (set_trace (trace p ++ [documentStart]) p)
      >>= parse_end sink.
Proof.
  intros Hs Hf. unfold parse, call, stop. rewrite Hs, Hf.
  destruct (sink _ _); destruct p; cbn in Hf; by subst.
Qed.

End Properties.

(** * Executions on concrete documents *)

Lemma parser_after_reachable sink doc :
  reachable sink (parser_after sink doc).
Proof.
  assert (Hnew : reachable sink (fresh doc)) by (unfold fresh; constructor).
  unfold parser_after.
  pose proof (parse_reachable sink (fresh doc) (parse sink (fresh doc))) as H.
  destruct (parse sink (fresh doc)) as [p|e p|].
  - exact (H p Hnew eq_refl eq_refl).
  - exact (H p Hnew eq_refl eq_refl).
  - exact Hnew.
Qed.

(** Against C1: a fresh parser does not get past the second
    character of [<a x="1"><b/>text</a>]. *)
Lemma element_document_not_parsed :
  ~ exists p',
      parse never (fresh element_document) = Ok p' /\
      trace p' = [documentStart; elementStart "a" {[ "x" := "1" ]};
                  elementStart "b" ∅; elementEnd "b"; textHandle "text";
                  elementEnd "a"; documentEnd].
Proof. intros (p' & H & _). vm_compute in H. discriminate H. Qed.

(** C1 (as amended).  On [<a x="1"><b/>text</a>] a fresh parser calls
    [documentStart] and fails with [KISAX_ERROR_PARSING], state 1 accepting
    nothing but [?]; on the same document after the definition tag [<?xml?>]
    it calls, in order, [documentStart], [definitionHandle("xml",{})],
    [elementStart("a",{x:"1"})], [elementStart("b",{})], [elementEnd("b")],
    [textHandle("text")], [elementEnd("a")] and [documentEnd], and throws
    nothing. *)
Theorem document_events junk :
  (exists p',
     parse never (Parser_new junk (Some (stream_of element_document)))
       = Throw KISAX_ERROR_PARSING p' /\
     trace p' = [documentStart]) /\
  (exists p',
     parse never (Parser_new junk (Some (stream_of defined_document)))
       = Ok p' /\
     trace p' = [documentStart; definitionHandle "xml" ∅;
                 elementStart "a" {[ "x" := "1" ]};
                 elementStart "b" ∅; elementEnd "b"; textHandle "text";
                 elementEnd "a"; documentEnd]).
Proof. split; eexists; split; vm_compute; reflexivity. Qed.

(** C2.  The handler of [elementEnd("a")] calls [stop()] while
    [<?x?><a></a><b>u</b>] is parsed.  The call of [parse()] returns with
    the stop flag up, but [documentEnd] is still called after the event
    that stopped the scan, and the condition of the loop has extracted the
    [<] of [<b>] before it tested the flag: the stream is left at
    [b>u</b>].  The next call of [parse()] calls no [documentStart] and
    goes on behind the lost character: it reports the text [b>u] and the
    end of an element [b] that never started, where the scan without a
    stop reports [elementStart("b")], the text [u] and [elementEnd("b")]. *)
Theorem stop_in_elementEnd_loses_character :
  stop_at_end "a"
    [documentStart; definitionHandle "x" ∅; elementStart "a" ∅]
    (elementEnd "a") = true /\
  (exists p1,
     parse (stop_at_end "a") (fresh stop_document) = Ok p1 /\
     trace p1 = [documentStart; definitionHandle "x" ∅;
                 elementStart "a" ∅; elementEnd "a"; documentEnd] /\
     m_stop_flag p1 = true /\
     m_is p1 = Some (stream_of "b>u</b>") /\
     exists p2,
       parse (stop_at_end "a") p1 = Ok p2 /\
       trace p2 = trace p1
                  ++ [textHandle "b>u"; elementEnd "b"; documentEnd]) /\
  (exists p,
     parse never (fresh stop_document) = Ok p /\
     trace p = [documentStart; definitionHandle "x" ∅;
                elementStart "a" ∅; elementEnd "a";
                elementStart "b" ∅; textHandle "u"; elementEnd "b";
                documentEnd]).
Proof.
  split; [reflexivity | split].
  - exists (parser_after (stop_at_end "a") stop_document).
    split; [|split; [|split; [|split]]]; try (vm_compute; reflexivity).
    eexists. split; vm_compute; reflexivity.
  - eexists. split; vm_compute; reflexivity.
Qed.


(** Against C4: [do_tag_end] runs with the closing-tag flag up and
    a non-empty attribute collection, on a definition tag, and reports the
    definition. *)
Lemma closing_flag_on_definition_example :
  m_is_closing_tag (parser_after never closing_definition_prefix) = true /\
  m_attributes (parser_after never closing_definition_prefix)
    = {[ "b" := "1" ]} /\
  (exists p',
     parse_body never
       (set_current_char ">" (parser_after never closing_definition_prefix))
       = Ok p' /\
     trace p' = trace (parser_after never closing_definition_prefix)
                ++ [definitionHandle "a" {[ "b" := "1" ]}]) /\
  (exists p',
     parse never (fresh (closing_definition_prefix +:+ ">")) = Ok p' /\
     trace p' = [documentStart; definitionHandle "x" ∅;
                 definitionHandle "a" {[ "b" := "1" ]}; documentEnd]).
Proof.
  split; [|split; [|split]]; try (vm_compute; reflexivity);
    eexists; split; vm_compute; reflexivity.
Qed.

(** C7: the character after a lone minus sign is lost.  Fictive state 24
    appends the minus sign alone, and the comment of [<!--a-b-->] is
    reported as [a-]. *)
Theorem comment_lone_minus_drops_character :
  exists p',
    parse never (fresh "<?x?><!--a-b-->") = Ok p' /\
    trace p' = [documentStart; definitionHandle "x" ∅; commentHandle "a-";
                documentEnd].
Proof. eexists. split; vm_compute; reflexivity. Qed.

(** C8: [reset] puts the state back to 0, lowers the four flags, empties
    the text, tag and attribute buffers and the attribute collection and
    keeps the stream, but it keeps the comment buffer as well: a comment cut
    short by the end of one document runs into the first comment of the
    next. *)
Theorem reset_keeps_comment_buffer :
  (forall p,
     m_state (reset p) = 0 /\
     (m_is_style (reset p), m_is_closing_tag (reset p),
      m_is_tag_no_body (reset p), m_stop_flag (reset p))
       = (false, false, false, false) /\
     (m_tag (reset p), m_text (reset p), m_attribute_first (reset p),
      m_attribute_second (reset p))
       = (EmptyString, EmptyString, EmptyString, EmptyString) /\
     m_attributes (reset p) = ∅ /\
     m_is (reset p) = m_is p /\
     m_comment (reset p) = m_comment p) /\
  m_comment (reset (parser_after never "<?x?><!--abc")) = "abc" /\
  exists p',
    parse never
      (bind (stream_of "<?x?><!--d-->")
         (reset (parser_after never "<?x?><!--abc"))) = Ok p' /\
    trace p' = trace (parser_after never "<?x?><!--abc")
               ++ [documentStart; definitionHandle "x" ∅;
                   commentHandle "abcd"; documentEnd].
Proof.
  split; [|split].
  - intros p. by repeat split.
  - vm_compute. reflexivity.
  - eexists. split; vm_compute; reflexivity.
Qed.

(** The examples of the specification, after a definition tag where the
    document has none. *)
Example xml_declaration_example :
  trace (parser_after never
           ("<?xml version=" +:+ quot +:+ "1.0" +:+ quot +:+ "?>"))
    = [documentStart; definitionHandle "xml" {[ "version" := "1.0" ]};
       documentEnd].
Proof. vm_compute. reflexivity. Qed.

Example comment_example :
  trace (parser_after never "<?x?><!-- hi -->")
    = [documentStart; definitionHandle "x" ∅; commentHandle " hi ";
       documentEnd].
Proof. vm_compute. reflexivity. Qed.

Example closing_attribute_document_example :
  exists p',
    parse never (fresh (closing_attribute_prefix +:+ ">"))
      = Throw KISAX_ERROR_CLOSING_TAG_WITH_ATTRIBUTES p' /\
    trace p' = [documentStart; definitionHandle "x" ∅].
Proof. eexists. split; vm_compute; reflexivity. Qed.

Example duplicate_attributes_example :
  trace (parser_after never
           (String.string_of_list_ascii
              (list_ascii_of_string "<?x?>" ++ tag_text StartTag "a" twice_b)))
    = [documentStart; definitionHandle "x" ∅;
       elementStart "a" {[ "b" := "1" ]}; documentEnd].
Proof. vm_compute. reflexivity. Qed.

(** Mismatched nesting is not an error. *)
Example mismatched_nesting_example :
  trace (parser_after never "<?x?><a><b></a></b>")
    = [documentStart; definitionHandle "x" ∅; elementStart "a" ∅;
       elementStart "b" ∅; elementEnd "a"; elementEnd "b"; documentEnd].
Proof. vm_compute. reflexivity. Qed.

(** ** The hypotheses of the theorems are met *)


Lemma self_closing_tag_events_witness :
  m_is_tag_no_body empty_element_parser = true /\
  exists p',
    do_tag_end never empty_element_parser = Ok p' /\
    trace p' = trace empty_element_parser
               ++ [elementStart (m_tag empty_element_parser)
                     (m_attributes empty_element_parser);
                   elementEnd (m_tag empty_element_parser)] /\
    m_state p' = 8.
Proof.
  split; [vm_compute; reflexivity|].
  apply (self_closing_tag_events never empty_element_parser).
  - apply parser_after_reachable.
  - vm_compute. reflexivity.
Defined.

Lemma closing_tag_with_attributes_witness :
  do_tag_end never closing_attribute_parser
    = Throw KISAX_ERROR_CLOSING_TAG_WITH_ATTRIBUTES closing_attribute_parser.
Proof.
  apply (closing_tag_with_attributes never closing_attribute_parser).
  - vm_compute. reflexivity.
  - vm_compute. reflexivity.
  - intros H. vm_compute in H. discriminate H.
Defined.

Lemma duplicate_attributes_first_wins_witness :
  exists p' m,
    parse_loop never (tag_text EmptyTag "a" twice_b ++ []) idle_parser
      = parse_loop never [] p' /\
    trace p' = trace idle_parser ++ tag_events EmptyTag "a" m /\
    forall k, m !! k = first_value k twice_b.
Proof.
  apply (duplicate_attributes_first_wins never EmptyTag "a" twice_b []
           idle_parser).
  - vm_compute. reflexivity.
  - vm_compute. reflexivity.
  - repeat split; vm_compute; reflexivity.
Defined.

Lemma comment_double_minus_raises_witness :
  exists p',
    parse never (fresh "<?x?><!--a--b-->") = Throw KISAX_ERROR_PARSING p'.
Proof.
  destruct (comment_double_minus_raises never ["a"%char] "b"
              (list_ascii_of_string "-->")
              (loop_after never (list_ascii_of_string "<?x?><!--")
                 (parse_begin never (fresh "<?x?><!--a--b-->"))))
    as [_ H].
  - left. vm_compute. reflexivity.
  - vm_compute. reflexivity.
  - vm_compute. reflexivity.
  - discriminate.
  - apply (H (fresh "<?x?><!--a--b-->") (stream_of "<?x?><!--a--b-->")
             (list_ascii_of_string "<?x?><!--")).
    + reflexivity.
    + reflexivity.
    + vm_compute. reflexivity.
    + vm_compute. reflexivity.
Defined.

Lemma stop_before_parse_witness :
  parse never (stop (fresh "<?x?>"))
    = parse_while never (stream_of "<?x?>")
        (set_stop_flag false (fresh "<?x?>")) >>= parse_end never /\
  parser_of (parse never (stop (fresh "<?x?>")))
    = Some (set_trace [definitionHandle "x" ∅; documentEnd]
              (parser_after never "<?x?>")).
Proof.
  split.
  - apply (stop_before_parse never (fresh "<?x?>") (stream_of "<?x?>")).
    reflexivity.
  - vm_compute. reflexivity.
Defined.

Lemma textHandle_never_empty_witness :
  textHandle "hi" ∈ trace (parser_after never "<?x?>hi<a>") /\
  "hi" <> EmptyString.
Proof.
  assert (H : textHandle "hi" ∈ trace (parser_after never "<?x?>hi<a>")).
  { apply list_elem_of_In. vm_compute. tauto. }
  split; [exact H|].
  apply (textHandle_never_empty never (fresh "<?x?>hi<a>")
           (parser_after never "<?x?>hi<a>") "hi").
  - unfold fresh. apply reachable_new.
  - vm_compute. reflexivity.
  - exact H.
Defined.

(** * Further properties of the classifier and of the errors *)

(** X1.  The classes of [getSymbolType] do not overlap: letters are
    [ALPHA], digits are [DIGIT], blank, line feed and tab -- and no other
    character -- are [DELIMITER], each of the ten marks is the only
    character of its class, and everything else is [ANOTHER]. *)
Theorem getSymbolType_classes c :
  (getSymbolType c = ALPHA <-> isalpha c = true) /\
  (getSymbolType c = DIGIT <-> isdigit c = true) /\
  (getSymbolType c = DELIMITER <->
   c = " "%char \/ c = "010"%char \/ c = "009"%char) /\
  (getSymbolType c = TAG_BEGIN <-> c = "<"%char) /\
  (getSymbolType c = TAG_END <-> c = ">"%char) /\
  (getSymbolType c = QUESTION <-> c = "?"%char) /\
  (getSymbolType c = EQUAL <-> c = "="%char) /\
  (getSymbolType c = QUOTE <-> c = "034"%char) /\
  (getSymbolType c = SLASH <-> c = "/"%char) /\
  (getSymbolType c = EXCLAMATION <-> c = "!"%char) /\
  (getSymbolType c = MINUS <-> c = "-"%char) /\
  (getSymbolType c = UNDERLINE <-> c = "_"%char) /\
  (getSymbolType c = COLON <-> c = ":"%char).
Proof.
  destruct c as [[] [] [] [] [] [] [] []]; vm_compute;
    repeat split; intros H; try discriminate H; try reflexivity;
    try (destruct H as [H | [H | H]]; discriminate H);
    auto.
Qed.

(** X2.  [what] tells the five error codes apart, and every other number,
    0 of the default constructor among them, is an unknown error. *)
Theorem what_describes_the_codes :
  (forall e1 e2, what (error_number e1) = what (error_number e2) -> e1 = e2) /\
  (forall n, (forall e, error_number e <> n) -> what n = "Unknown error") /\
  what 0 = "Unknown error".
Proof.
  split; [|split].
  - intros [] []; vm_compute; intros H; try reflexivity; discriminate H.
  - intros n H. unfold what.
    pose proof (H KISAX_ERROR_CLOSE_STYLE_TAG).
    pose proof (H KISAX_ERROR_CLOSING_TAG_WITH_NO_BODY).
    pose proof (H KISAX_ERROR_CLOSING_TAG_WITH_ATTRIBUTES).
    pose proof (H KISAX_ERROR_BAD_STREAM).
    pose proof (H KISAX_ERROR_PARSING).
    cbn in *.
    repeat match goal with
           | |- context [?a =? ?b] => destruct (Z.eqb_spec a b); [congruence|]
           end.
    reflexivity.
  - reflexivity.
Qed.

(** ** The hypotheses of the further properties are met *)

Lemma parse_loop_app_witness :
  parse_loop never
    (list_ascii_of_string "<?x?><a" ++ list_ascii_of_string " b>")
    (fresh EmptyString)
  = parse_loop never (list_ascii_of_string " b>")
      (loop_after never (list_ascii_of_string "<?x?><a") (fresh EmptyString)).
Proof.
  apply (parse_loop_app never).
  - vm_compute. reflexivity.
  - vm_compute. reflexivity.
Defined.

Lemma stop_discards_next_character_witness :
  parse_loop (stop_at_start "b") (list_ascii_of_string "><c/>")
    empty_element_parser
  = Ok (set_current_char "<"
          (set_is (Some (stream_of "c/>"))
             (body_after (stop_at_start "b") before_tag_end))).
Proof.
  apply (stop_discards_next_character (stop_at_start "b")
           empty_element_parser ">" "<" (list_ascii_of_string "c/>")
           (body_after (stop_at_start "b") before_tag_end)).
  - vm_compute. reflexivity.
  - vm_compute. reflexivity.
  - vm_compute. reflexivity.
Defined.

Lemma body_leaves_no_fictive_state_witness :
  0 <= m_state (body_after never before_tag_end) <= 23 /\
  m_state (body_after never before_tag_end) <> 6 /\
  m_state (body_after never before_tag_end) <> 16.
Proof.
  apply (body_leaves_no_fictive_state never before_tag_end).
  vm_compute. reflexivity.
Defined.

Lemma table_read_out_of_bounds_witness :
  parse_body never (parser_after never element_document) = Undefined.
Proof.
  apply (table_read_out_of_bounds never (parser_after never element_document)).
  - apply parser_after_reachable.
  - vm_compute. reflexivity.
Defined.

Lemma parse_events_witness :
  exists evs,
    Forall scan_event evs /\
    trace (parser_after never "<?x?>")
    = trace (fresh "<?x?>")
      ++ (if m_stop_flag (fresh "<?x?>") then [] else [documentStart])
      ++ evs
      ++ (match parse never (fresh "<?x?>") with
          | Ok _ => [documentEnd]
          | _ => []
          end).
Proof.
  apply (parse_events never (fresh "<?x?>") (stream_of "<?x?>")).
  - reflexivity.
  - reflexivity.
  - vm_compute. reflexivity.
Defined.

Lemma document_must_begin_with_definition_witness :
  exists p',
    parse never
      (Parser_new "000"
         (Some (Istream (list_ascii_of_string "  <a>") false false false)))
      = Throw KISAX_ERROR_PARSING p' /\
    trace p' = [documentStart].
Proof.
  apply (document_must_begin_with_definition never).
  vm_compute. reflexivity.
Defined.

Lemma text_is_delivered_witness :
  exists p',
    parse_loop never
      ([" "%char] ++ list_ascii_of_string "hi !" ++ "<"%char
       :: list_ascii_of_string "a>") idle_parser
      = parse_loop never (list_ascii_of_string "a>") p' /\
    trace p' = trace idle_parser ++ [textHandle "hi !"] /\
    m_state p' = 2 /\ m_text p' = EmptyString.
Proof.
  apply (text_is_delivered never [" "%char] "h" (list_ascii_of_string "i !")
           (list_ascii_of_string "a>") idle_parser);
    vm_compute; reflexivity.
Defined.

Lemma closing_tag_events_witness :
  exists p',
    parse_loop never (tag_head OpenClosing "a" [] ++ ">"%char :: []) idle_parser
      = parse_loop never [] p' /\
    trace p' = trace idle_parser ++ [elementEnd "a"] /\ m_state p' = 8.
Proof.
  apply (closing_tag_events never "a" [] [] idle_parser).
  - vm_compute. reflexivity.
  - vm_compute. reflexivity.
  - repeat split; vm_compute; reflexivity.
Defined.

Lemma tag_marker_errors_witness :
  exists p',
    parse_loop never (tag_head OpenClosing "a" [] ++ "/"%char :: [])
      idle_parser
      = Throw KISAX_ERROR_CLOSING_TAG_WITH_NO_BODY p' /\
    trace p' = trace idle_parser.
Proof.
  apply (tag_marker_errors never OpenClosing "a" [] "/"
           KISAX_ERROR_CLOSING_TAG_WITH_NO_BODY [] idle_parser).
  - vm_compute. reflexivity.
  - vm_compute. reflexivity.
  - repeat split; vm_compute; reflexivity.
  - vm_compute. reflexivity.
Defined.

Lemma definition_tag_without_closing_mark_witness :
  exists p',
    parse_loop never (tag_head OpenDefinition "xml" twice_b ++ ">"%char :: [])
      idle_parser
      = parse_loop never [] p' /\
    trace p' = trace idle_parser
               ++ [definitionHandle "xml" (attributes_of twice_b)] /\
    m_state p' = 8.
Proof.
  apply (definition_tag_without_closing_mark never "xml" twice_b []
           idle_parser).
  - vm_compute. reflexivity.
  - vm_compute. reflexivity.
  - repeat split; vm_compute; reflexivity.
Defined.

Lemma two_blanks_in_tag_raise_witness :
  exists p',
    parse_loop never (tag_head OpenStart "a" [] ++ " "%char :: " "%char :: [])
      idle_parser
      = Throw KISAX_ERROR_PARSING p' /\
    trace p' = trace idle_parser.
Proof.
  apply (two_blanks_in_tag_raise never OpenStart "a" [] " " " " []
           idle_parser).
  - vm_compute. reflexivity.
  - vm_compute. reflexivity.
  - repeat split; vm_compute; reflexivity.
  - vm_compute. reflexivity.
  - vm_compute. reflexivity.
Defined.

Lemma comment_is_delivered_witness :
  exists p',
    parse_loop never
      (["<"; "!"; "-"; "-"]%char
       ++ list_ascii_of_string "a-b c"
       ++ "-"%char :: "-"%char :: ">"%char :: []) idle_parser
      = parse_loop never [] p' /\
    trace p' = trace idle_parser
               ++ [commentHandle
                     (m_comment idle_parser
                      +:+ string_of_list_ascii
                            (drop_after_minus (list_ascii_of_string "a-b c")))] /\
    m_state p' = 8 /\ m_comment p' = EmptyString.
Proof.
  apply (comment_is_delivered never (list_ascii_of_string "a-b c") []
           idle_parser).
  - vm_compute. reflexivity.
  - vm_compute. reflexivity.
  - vm_compute. reflexivity.
Defined.

Lemma idle_state_is_clear_witness :
  tag_fields_clear idle_parser /\ m_text idle_parser = EmptyString /\
  (m_stop_flag idle_parser = false -> idle idle_parser).
Proof.
  apply (idle_state_is_clear never idle_parser).
  - apply parser_after_reachable.
  - vm_compute. reflexivity.
Defined.

Lemma do_tag_is_closing_never_throws_witness :
  m_state (body_after never before_letter) <> 9.
Proof.
  apply (do_tag_is_closing_never_throws never before_letter
           KISAX_ERROR_PARSING (body_after never before_letter)).
  - unfold before_letter, fresh. apply reachable_get, reachable_new.
  - vm_compute. reflexivity.
Defined.

Lemma stop_in_documentStart_is_lost_witness :
  parse (fun _ _ => true) (fresh "<?x?>")
  = parse_while (fun _ _ => true) (stream_of "<?x?>")
      (set_trace (trace (fresh "<?x?>") ++ [documentStart]) (fresh "<?x?>"))
    >>= parse_end (fun _ _ => true).
Proof.
  apply (stop_in_documentStart_is_lost (fun _ _ => true) (fresh "<?x?>")
           (stream_of "<?x?>")); reflexivity.
Defined.
